(** * backprop_cuda.cu: the batched backpropagation kernel and its host driver

    A shallow embedding of [src/boosting/backprop_cuda.cu]: the activation
    unit ([transform], [delta]), the per-layer thread mapping and the
    gradient update of [train_N_examples], the dispatch loops of
    [train_examples_kernel], and the sizes computed by [Backprop::Plan] and
    [Backprop::Context] together with [Context::synchronize].

    Conventions.
    - C [int] and [unsigned] values are integers of [Z]; every place where
      the source computes in 32-bit unsigned arithmetic is written with
      [u32] (reduction modulo 2^32), and the [int] products, sums and
      accessor offsets of the layout with [s32] (the two's complement
      value the device and the host keep).
    - [float] is IEEE binary32 and [double] is IEEE binary64, both given by
      the parameterised specification [spec_float] of the standard library
      (round to nearest even, one NaN).
    - Device memory holding floats is a total map from element index to
      value.  The gradient accumulators of a layer are a list of cells of
      the accumulation type; that type and the effect of an atomic add on a
      cell come from headers outside this file and are parameters. *)

From Stdlib Require Import ZArith Lia Bool List.
From Stdlib Require Import Floats.SpecFloat.
From stdpp Require Import base numbers list strings.

Local Open Scope Z_scope.

(** ** Machine integers *)

Definition two32 : Z := 4294967296.

(** Conversion to [unsigned]: the value modulo 2^32. *)
Definition u32 (z : Z) : Z := z mod two32.

(** The value an [int] holds after an operation whose exact result is [z]:
    the two's complement representative of [z] in [-2^31, 2^31). *)
Definition s32 (z : Z) : Z := (z + 2147483648) mod two32 - 2147483648.

(** The values of [int]. *)
Definition in_int (z : Z) : Prop := -2147483648 <= z < 2147483648.

(** [sizeof(float)] and [sizeof(double)] on the device. *)
Definition sizeof_float : Z := 4.
Definition sizeof_double : Z := 8.

(** ** Floating point *)

Definition float : Type := spec_float.
Definition double : Type := spec_float.

Definition fprec : Z := 24.
Definition femax : Z := 128.
Definition dprec : Z := 53.
Definition demax : Z := 1024.

Definition fmul : float -> float -> float := SFmul fprec femax.
Definition fsub : float -> float -> float := SFsub fprec femax.
Definition dadd : double -> double -> double := SFadd dprec demax.

(** The literals [0.0] and [1.0f]. *)
Definition fzero : float := S754_zero false.
Definition fone : float := S754_finite false 8388608 (-23).
Definition dzero : double := S754_zero false.

(** Implicit conversion [float] to [double] (exact) and back (rounding). *)
Definition float_to_double (x : float) : double :=
  match x with
  | S754_finite s m e => binary_round dprec demax s m e
  | _ => x
  end.

Definition double_to_float (x : double) : float :=
  match x with
  | S754_finite s m e => binary_round fprec femax s m e
  | _ => x
  end.

(** A well-formed binary32 datum, and the finite ones among them. *)
Definition is_float (x : float) : bool := valid_binary fprec femax x.

Definition is_finite (x : float) : bool :=
  match x with
  | S754_zero _ | S754_finite _ _ _ => true
  | _ => false
  end.

Definition is_zero (x : spec_float) : bool :=
  match x with
  | S754_zero _ => true
  | _ => false
  end.

(** ** Activation unit *)

(** Modelled from the spec: the activation-kind tag of [perceptron_defs.h]
    (that header is not part of the sources at hand).  The kernel receives
    the tag as an [int]; [ACT_TANH] and [ACT_IDENTITY] are the two tags the
    [switch] statements name, and [ACT_OTHER code] is any other integer. *)
Inductive Activation : Type :=
  | ACT_TANH
  | ACT_IDENTITY
  | ACT_OTHER (code : Z).

Section ActivationUnit.

(** The device's single-precision [tanh]. *)
Variable tanhf : float -> float.

(** [__device__ float transform(float input, int activation)] *)
Definition transform (input : float) (activation : Activation) : float :=
  match activation with
  | ACT_TANH => tanhf input
  | ACT_IDENTITY => input
  | ACT_OTHER _ => fzero
  end.

(** What the specification asks of the forward function: an unsupported
    kind is an error, here [None], instead of a value. *)
Definition forward_spec (x : float) (kind : Activation) : option float :=
  match kind with
  | ACT_TANH => Some (tanhf x)
  | ACT_IDENTITY => Some x
  | ACT_OTHER _ => None
  end.

End ActivationUnit.

(** [__device__ float delta(float output, float error, int activation)] *)
Definition delta (output error : float) (activation : Activation) : float :=
  match activation with
  | ACT_TANH => fmul (fsub fone (fmul output output)) error
  | ACT_IDENTITY => fmul output error
  | ACT_OTHER _ => fzero
  end.

(** ** Loops

    A C [for] loop over an integer variable, run for a bounded number of
    iterations.  [Done i s] is the state in which the loop condition failed;
    [OutOfFuel i s] is the state reached when the budget ran out while the
    condition still held. *)

Inductive outcome (S : Type) : Type :=
  | Done (i : Z) (s : S)
  | OutOfFuel (i : Z) (s : S).

Arguments Done {S} i s.
Arguments OutOfFuel {S} i s.

Fixpoint for_loop {S : Type} (fuel : nat) (cond : Z -> bool) (next : Z -> Z)
    (body : Z -> S -> S) (i : Z) (s : S) : outcome S :=
  match fuel with
  | O => OutOfFuel i s
  | Datatypes.S fuel' =>
      if cond i then for_loop fuel' cond next body (next i) (body i s)
      else Done i s
  end.

(** [for (unsigned i = start; i < bound; i += step) body], the shape of every
    counted loop of the kernel: the comparison and the increment are
    unsigned. *)
Definition for_upto {S : Type} (fuel : nat) (start bound step : Z)
    (body : Z -> S -> S) (s : S) : outcome S :=
  for_loop fuel (fun i => i <? bound) (fun i => u32 (i + step)) body start s.

(** [FOR_ALL_X(expr)]: [for (int x = 0; x < N; ++x) expr]. *)
Definition FOR_ALL_X {S : Type} (N : Z) (expr : Z -> S -> S) (s : S) : S :=
  foldl (fun s x => expr x s) s (seqZ 0 N).

(** The indices [start, start + step, ...] visited by [count] iterations. *)
Definition stride_range (start step : Z) (count : nat) : list Z :=
  (fun j : nat => start + Z.of_nat j * step) <$> seq 0 count.

(** ** Device memory *)

(** A device array of floats, read and written by element index. *)
Definition mem : Type := Z -> float.

Definition store (m : mem) (a : Z) (v : float) : mem :=
  fun a' => if a' =? a then v else m a'.

(** [WeightsAccess]: a base array and a moving offset.  Direct and texture
    access read the same buffer, so one array stands for both. *)
Record WeightsAccess : Type := {
  base : mem;
  offset : Z
}.

(** [operator +=], [operator -=] and [operator []]: [offset] is an [int],
    and so are the arguments [val] and [ofs] and the sum [offset + ofs]. *)
Definition wa_advance (w : WeightsAccess) (val : Z) : WeightsAccess :=
  {| base := base w; offset := s32 (offset w + s32 val) |}.

Definition wa_retreat (w : WeightsAccess) (val : Z) : WeightsAccess :=
  {| base := base w; offset := s32 (offset w - s32 val) |}.

Definition wa_get (w : WeightsAccess) (ofs : Z) : float :=
  base w (s32 (offset w + s32 ofs)).

(** ** train_N_examples: forward pass *)

(** [scratch[x * scratch_stride + tid]]: the index, computed in unsigned
    arithmetic ([x] and [tid] are unsigned). *)
Definition scratch_index (scratch_stride x tid : Z) : Z :=
  u32 (u32 (x * scratch_stride) + tid).

(** Copying the inputs into shared memory, one thread:
    [scratch[x * scratch_stride + tid] = (tid < ni ? input[x * input_stride + tid] : 0.0)]. *)
Definition load_inputs (N : Z) (input : mem) (ni scratch_stride tid : Z)
    (scratch : mem) : mem :=
  FOR_ALL_X N (fun x scratch =>
    store scratch (scratch_index scratch_stride x tid)
      (if tid <? u32 ni then input (u32 (u32 (x * ni) + tid)) else fzero))
    scratch.

(** The assignment of a thread to an output and a sub-lane of a layer with
    [no] outputs, for a thread group of [nt] threads. *)
Record thread_map : Type := {
  min_threads : Z;
  left_over : Z;
  max_threads : Z;
  o : Z;
  idx : Z;
  o_threads : Z
}.

Definition b2z (b : bool) : Z := if b then 1 else 0.

Definition fprop_thread_map (nt no tid : Z) : thread_map :=
  let min_threads := nt ÷ no in
  let left_over := nt `rem` no in
  let max_threads := min_threads + b2z (0 <? left_over) in
  let o := tid mod u32 no in
  let idx := tid / u32 no in
  let o_threads := min_threads + b2z (o <? left_over) in
  {| min_threads := min_threads; left_over := left_over;
     max_threads := max_threads; o := o; idx := idx;
     o_threads := o_threads |}.

(** One step of the partial dot product: for input [i], every example's
    accumulator gains [weight * scratch[x * scratch_stride + i]].

    The scratch is shared with the other threads of the group, which run
    meanwhile.  [scratch_at i x] is the scratch as it is when this thread
    reads it in iteration [i] for example [x]; nothing is supposed about
    how it changes from one read to the next.  (Where several threads
    share an output, barriers surround the loop and no thread stores
    between them; where every thread has an output of its own, no barrier
    separates the loop from the stores by which the other threads end the
    layer.) *)
Definition fprop_step (N : Z) (layer_weights : WeightsAccess)
    (w_stride scratch_stride : Z) (scratch_at : Z -> Z -> mem) (o : Z)
    (i : Z) (accum : list double) : list double :=
  let weight := wa_get layer_weights (u32 (u32 (i * w_stride) + o)) in
  FOR_ALL_X N (fun x accum =>
    match accum !! Z.to_nat x with
    | Some a =>
        <[Z.to_nat x := dadd a (float_to_double
             (fmul weight
                (scratch_at i x (scratch_index scratch_stride x i))))]> accum
    | None => accum
    end) accum.

(** [for (unsigned i = idx; i < ni; i += o_threads)] over [accum[N]], all
    entries starting at [0.0]. *)
Definition fprop_partial_sums (fuel : nat) (N : Z)
    (layer_weights : WeightsAccess) (ni no w_stride nt scratch_stride : Z)
    (scratch_at : Z -> Z -> mem) (tid : Z) : outcome (list double) :=
  let tm := fprop_thread_map nt no tid in
  for_upto fuel (idx tm) (u32 ni) (o_threads tm)
    (fprop_step N layer_weights w_stride scratch_stride scratch_at (o tm))
    (replicate (Z.to_nat N) dzero).

(** The input indices a thread visits in that loop, in order. *)
Definition fprop_visited (fuel : nat) (ni no nt tid : Z) : outcome (list Z) :=
  let tm := fprop_thread_map nt no tid in
  for_upto fuel (idx tm) (u32 ni) (o_threads tm) (fun i l => l ++ [i]) [].

(** [this_layer_outputs[x * total_neurons + tid]]: the element of the global
    output log a thread of group [block_num] touches for example [x] of its
    batch.  [layer_base] is the sum of the widths of the layers already
    passed ([this_layer_outputs += no]), and the kernel has moved the log by
    [block_num * total_neurons] before the call. *)
Definition layer_output_index (block_num total_neurons layer_base x tid : Z) : Z :=
  u32 (block_num * total_neurons) + layer_base + u32 (x * total_neurons + tid).

(** The end of a layer when several threads share an output
    ([max_threads > 1]); a thread with [tid < no] stores
    [this_layer_outputs[x * total_neurons + tid]
       = scratch[x * scratch_stride + tid]
       = transform(scratch[x * scratch_stride + tid], activation)].
    The pair is the shared scratch and the global output log. *)
Definition fprop_store_shared (tanhf : float -> float) (N : Z)
    (activation : Activation)
    (no scratch_stride total_neurons block_num layer_base tid : Z)
    (memory : mem * mem) : mem * mem :=
  if tid <? u32 no then
    FOR_ALL_X N (fun x memory =>
      let out :=
        transform tanhf (fst memory (scratch_index scratch_stride x tid))
          activation in
      (store (fst memory) (scratch_index scratch_stride x tid) out,
       store (snd memory)
         (layer_output_index block_num total_neurons layer_base x tid) out))
      memory
  else memory.

(** The end of a layer when every thread has an output of its own:
    [accum[x] += bias;
     this_layer_outputs[x * total_neurons + o] = scratch[x * scratch_stride + o]
       = transform(accum[x], activation)]. *)
Definition fprop_store_single (tanhf : float -> float) (N : Z)
    (activation : Activation) (layer_biases : WeightsAccess)
    (scratch_stride total_neurons block_num layer_base o : Z)
    (accum : list double) (memory : mem * mem) : mem * mem :=
  let bias := wa_get layer_biases o in
  FOR_ALL_X N (fun x memory =>
    match accum !! Z.to_nat x with
    | Some a =>
        let out :=
          transform tanhf (double_to_float (dadd a (float_to_double bias)))
            activation in
        (store (fst memory) (scratch_index scratch_stride x o) out,
         store (snd memory)
           (layer_output_index block_num total_neurons layer_base x o) out)
    | None => memory
    end) memory.

(** ** train_N_examples: backward pass *)

(** [FOR_ALL_X(last_output[x] = scratch[x * scratch_stride + tid])] *)
Definition read_last_output (scratch_stride tid : Z) (scratch : mem) : Z -> float :=
  fun x => scratch (scratch_index scratch_stride x tid).

(** The first error calculation of one thread, after the barrier:
    [scratch[x * scratch_stride + tid] = (tid < no ? wanted - last_output[x] : 0.0)]
    with [wanted = (labels[x] == tid ? fire : inhibit)]. *)
Definition first_error_thread (N : Z) (labels : Z -> Z) (fire inhibit : float)
    (no scratch_stride tid : Z) (last_output : Z -> float) (scratch : mem) : mem :=
  FOR_ALL_X N (fun x scratch =>
    let correct := u32 (labels x) =? tid in
    let wanted := if correct then fire else inhibit in
    store scratch (scratch_index scratch_stride x tid)
      (if tid <? u32 no then fsub wanted (last_output x) else fzero))
    scratch.

(** The same for the whole thread group: every thread reads its last outputs
    from the scratch left by the forward pass, the barrier is passed, and
    every thread writes its errors. *)
Definition first_error_pass (N : Z) (labels : Z -> Z) (fire inhibit : float)
    (no scratch_stride nthreads : Z) (scratch : mem) : mem :=
  foldl (fun s tid =>
           first_error_thread N labels fire inhibit no scratch_stride tid
             (read_last_output scratch_stride tid scratch) s)
    scratch (seqZ 0 nthreads).

(** The deltas of a layer:
    [prev_output = (tid >= no ? 0.0 : this_layer_outputs[x * total_neurons + tid])],
    [error = scratch[x * scratch_stride + tid]] and
    [d[x] = (tid >= no ? 0.0 : delta(prev_output, error, activation))]. *)
Definition bprop_delta (activation : Activation)
    (no scratch_stride total_neurons block_num layer_base tid : Z)
    (scratch layer_outputs : mem) : Z -> float :=
  fun x =>
    let prev_output :=
      if u32 no <=? tid then fzero
      else layer_outputs
             (layer_output_index block_num total_neurons layer_base x tid) in
    let error := scratch (scratch_index scratch_stride x tid) in
    if u32 no <=? tid then fzero else delta prev_output error activation.

(** [k[x] = example_weights[x] * learning_rate] *)
Definition k_of (example_weights : Z -> float) (learning_rate : float) : Z -> float :=
  fun x => fmul (example_weights x) learning_rate.

(** [float update = prev * k[x] * d[x]] and, for the bias, [k[x] * d[x]]. *)
Definition weight_update_term (prev kx dx : float) : float :=
  fmul (fmul prev kx) dx.

Definition bias_update_term (kx dx : float) : float := fmul kx dx.

(** [prev = (l == 0 ? input[x * input_stride + i] : last_layer_outputs[x * total_neurons + i])] *)
Definition prev_output (l : Z) (input : mem) (input_stride : Z)
    (last_layer_outputs : mem) (total_neurons : Z) (x i : Z) : float :=
  if l =? 0 then input (u32 (x * input_stride + i))
  else last_layer_outputs (u32 (x * total_neurons + i)).

(** [double total_update = 0.0; for x: total_update += update] *)
Definition total_weight_update (N : Z) (prev k d : Z -> float) : double :=
  FOR_ALL_X N (fun x total_update =>
    dadd total_update (float_to_double (weight_update_term (prev x) (k x) (d x))))
    dzero.

Definition total_bias_update (N : Z) (k d : Z -> float) : double :=
  FOR_ALL_X N (fun x total_update =>
    dadd total_update (float_to_double (bias_update_term (k x) (d x))))
    dzero.

(** The stagger: [thread_stride], [start_at] and the real index of [i_]. *)
Definition thread_stride_of (ni num_threads_in_block : Z) : Z :=
  let thread_stride := ni ÷ num_threads_in_block in
  if thread_stride =? 0 then 1 else thread_stride.

Definition start_at_of (block_num ni num_threads_in_block : Z) : Z :=
  u32 (block_num * thread_stride_of ni num_threads_in_block) mod u32 ni.

Definition real_index (ni i_ : Z) : Z :=
  u32 (i_ - b2z (u32 ni <=? i_) * ni).

(** [for (unsigned i_ = start_at; i_ < ni + start_at; ++i_)], the body being
    given the real index [i]. *)
Definition stagger_loop {S : Type} (fuel : nat) (ni start_at : Z)
    (body : Z -> S -> S) (s : S) : outcome S :=
  for_upto fuel start_at (u32 (ni + start_at)) 1
    (fun i_ s => body (real_index ni i_) s) s.


Section GradientUpdate.

(** The accumulation type [UpdateFloat] (a fixed-point accumulator of
    [fixed_point_accum.h]) and what [atomic_add] of [arch/cuda/atomic.h]
    does to one cell when a [double] is added to it; both headers are
    outside the sources at hand and are taken as they come. *)
Variable UpdateFloat : Type.
Variable atomic_add_cell : UpdateFloat -> double -> UpdateFloat.

(** [atomic_add(array[index], value)] *)
Definition atomic_add (array : list UpdateFloat) (index : Z) (value : double)
    : list UpdateFloat :=
  alter (fun cell => atomic_add_cell cell value) (Z.to_nat index) array.

Variable N : Z.
Variable l : Z.
Variable input : mem.
Variable input_stride : Z.
Variable last_layer_outputs : mem.
Variable total_neurons : Z.
Variable example_weights : Z -> float.
Variable learning_rate : float.
Variable d : Z -> float.
Variable ni w_stride : Z.
Variable num_threads_in_block : Z.
Variable tid : Z.

(** The body of the update loop for input [i]. *)
Definition update_weight (i : Z) (layer_updates : list UpdateFloat)
    : list UpdateFloat :=
  let k := k_of example_weights learning_rate in
  let total_update :=
    total_weight_update N
      (fun x => prev_output l input input_stride last_layer_outputs
                  total_neurons x i) k d in
  atomic_add layer_updates (u32 (u32 (i * w_stride) + tid)) total_update.

(** The weight updates of one thread of group [block_num] for one layer. *)
Definition update_weights (fuel : nat) (block_num : Z)
    (layer_updates : list UpdateFloat) : outcome (list UpdateFloat) :=
  stagger_loop fuel ni (start_at_of block_num ni num_threads_in_block)
    update_weight layer_updates.

(** The bias update that follows. *)
Definition update_bias (layer_bias_updates : list UpdateFloat)
    : list UpdateFloat :=
  let k := k_of example_weights learning_rate in
  atomic_add layer_bias_updates tid (total_bias_update N k d).

(** Both, as the thread performs them for one layer: the accumulators of
    the layer before and after. *)
Definition update_layer (fuel : nat) (block_num : Z)
    (updates : list UpdateFloat * list UpdateFloat)
    : outcome (list UpdateFloat * list UpdateFloat) :=
  match update_weights fuel block_num (fst updates) with
  | Done i layer_updates => Done i (layer_updates, update_bias (snd updates))
  | OutOfFuel i layer_updates => OutOfFuel i (layer_updates, snd updates)
  end.

End GradientUpdate.

(** ** The gradient updates of a launch *)


(** The atomic adds of a worker: one for an input index [i] of the update
    loop, and the one of the bias. *)
Inductive step : Type :=
  | weight_step (i : Z)
  | bias_step.



Section GradientLaunch.

Variable UpdateFloat : Type.
Variable atomic_add_cell : UpdateFloat -> double -> UpdateFloat.
Variable l : Z.
Variable input_stride total_neurons : Z.
Variable learning_rate : float.
Variable w_stride : Z.



End GradientLaunch.


(** ** train_examples_kernel: the dispatch loops *)

(** One call [train_N_examples<N>(feature_vectors + example_num * width,
    labels + example_num, example_weights + example_num, ...)]. *)
Record dispatch : Type := {
  batch_size : Z;
  first_example : Z
}.

Definition call (N example_num : Z) : dispatch :=
  {| batch_size := N; first_example := example_num |}.

(** The examples such a call reads: [labels[x]], [example_weights[x]] and
    the feature vector [x], for [x < N], counted from [example_num]. *)
Definition examples_read (c : dispatch) : list Z :=
  seqZ (first_example c) (batch_size c).

(** [for (; example_num < bound; example_num += N) train_N_examples<N>(...)] *)
Definition dispatch_loop (fuel : nat) (N bound example_num : Z)
    (calls : list dispatch) : outcome (list dispatch) :=
  for_upto fuel example_num bound N
    (fun example_num calls => calls ++ [call N example_num])
    calls.

(** [unsigned example_num_base] and [unsigned last_example]. *)
Definition example_num_base_of (block_num examples_per_block : Z) : Z :=
  u32 (block_num * examples_per_block).

Definition last_example_of (block_num examples_per_block total_num_examples : Z) : Z :=
  Z.min (u32 total_num_examples)
        (u32 (example_num_base_of block_num examples_per_block + examples_per_block)).

(** The three loops of the kernel for thread group [block_num]; the bounds
    [last_example - 7] and [last_example - 3] are unsigned subtractions. *)
Definition train_examples_kernel (fuel : nat)
    (block_num examples_per_block total_num_examples : Z)
    : outcome (list dispatch) :=
  let example_num_base := example_num_base_of block_num examples_per_block in
  let last_example :=
    last_example_of block_num examples_per_block total_num_examples in
  match dispatch_loop fuel 8 (u32 (last_example - 7)) example_num_base [] with
  | OutOfFuel i calls => OutOfFuel i calls
  | Done example_num calls =>
      match dispatch_loop fuel 4 (u32 (last_example - 3)) example_num calls with
      | OutOfFuel i calls => OutOfFuel i calls
      | Done example_num calls =>
          dispatch_loop fuel 1 last_example example_num calls
      end
  end.

(** The dispatch the specification describes for a chunk: batches of 8 while
    at least 8 examples remain, then of 4, then single examples. *)
Definition dispatch_spec (example_num_base last_example : Z) : list dispatch :=
  let n := last_example - example_num_base in
  let n8 := n / 8 in
  let n4 := (n mod 8) / 4 in
  let n1 := (n mod 8) mod 4 in
  ((fun j => call 8 (example_num_base + 8 * j)) <$> seqZ 0 n8)
  ++ ((fun j => call 4 (example_num_base + 8 * n8 + 4 * j)) <$> seqZ 0 n4)
  ++ ((fun j => call 1 (example_num_base + 8 * n8 + 4 * n4 + j))
        <$> seqZ 0 n1).

(** ** Backprop::Plan *)

(** The members of type [int], and [threads]. *)
Record Plan : Type := {
  num_layers : Z;
  architecture : list Z;
  w_strides : list Z;
  plan_max_width : Z;
  plan_total_neurons : Z;
  threads : Z;
  shared_mem_stride : Z
}.

(** The layout constants computed by the constructor.  [architecture] holds
    the [num_layers + 1] widths the constructor copies.  [max_width],
    [total_neurons] and [shared_mem_stride] are [int]s:
    [total_neurons += architecture[l]] and
    [shared_mem_stride = max_width * sizeof(float)]. *)
Definition Plan_new (num_layers : Z) (architecture w_strides : list Z) : Plan :=
  let widths := take (Z.to_nat (num_layers + 1)) architecture in
  let max_width := foldl Z.max 0 widths in
  let total_neurons :=
    foldl (fun total_neurons width => s32 (total_neurons + width)) 0 widths in
  let shared_mem_stride := s32 (max_width * sizeof_float) in
  {| num_layers := num_layers;
     architecture := architecture;
     w_strides := w_strides;
     plan_max_width := max_width;
     plan_total_neurons := total_neurons;
     threads := max_width;
     shared_mem_stride := shared_mem_stride |}.

(** The member [shared_mem_size = shared_mem_stride * 4 + 4 * sizeof(double)],
    the one [size_t] of the Plan: the product is made in [int], the sum in
    [size_t], which holds the numbers below [size_t_modulus]. *)
Definition shared_mem_size (size_t_modulus : Z) (p : Plan) : Z :=
  (s32 (shared_mem_stride p * 4) + 4 * sizeof_double) mod size_t_modulus.

(** The number of [float] elements of the shared scratch array handed to the
    kernel launch. *)
Definition scratch_elements (size_t_modulus : Z) (p : Plan) : Z :=
  shared_mem_size size_t_modulus p ÷ sizeof_float.

(** ** Backprop::Context *)

(** Modelled from the spec: [rudiv] of [math/xdiv.h] (not part of the sources
    at hand), the division rounding up that gives
    grid size = ceil(batch_size / examples_per_block). *)
Definition rudiv (x y : Z) : Z := (x + y - 1) / y.

Definition num_examples_per_invocation : Z := 4.

Definition grid_size_of (num_feature_vectors : Z) : Z :=
  rudiv num_feature_vectors num_examples_per_invocation.

(** [d_layer_outputs.init(plan.total_neurons * grid_size * 4)]: the number of
    elements of the global output log. *)
Definition layer_outputs_size (p : Plan) (num_feature_vectors : Z) : Z :=
  plan_total_neurons p * grid_size_of num_feature_vectors * 4.

(** ** Context::synchronize *)

(** [ML::Exception], carrying its message. *)
Inductive Exception : Type :=
  | mkException (what : String.string).

(** The caller's output buffers [weight_updates[l]] and [bias_updates[l]]. *)
Record host_buffers (A : Type) : Type := {
  weight_updates : list (list A);
  bias_updates : list (list A)
}.

Arguments weight_updates {A} _.
Arguments bias_updates {A} _.

(** Host code: a computation over the caller's buffers that either returns
    or throws, and in both cases leaves the buffers in some state. *)
Definition host (A : Type) : Type :=
  host_buffers float -> (Exception + A) * host_buffers float.

Definition ret {A : Type} (a : A) : host A := fun h => (inr a, h).

Definition throw {A : Type} (e : Exception) : host A := fun h => (inl e, h).

Definition bind {A B : Type} (c : host A) (f : A -> host B) : host B :=
  fun h =>
    match c h with
    | (inl e, h') => (inl e, h')
    | (inr a, h') => f a h'
    end.

Notation "c1 ;;; c2" := (bind c1 (fun _ => c2))
  (at level 100, c2 at level 200, right associativity).

(** [for (unsigned l = 0; l < num_layers; ++l) body(l)] in host code. *)
Definition for_layers (num_layers : Z) (body : Z -> host unit) : host unit :=
  foldr (fun l rest => body l ;;; rest) (ret tt) (seqZ 0 num_layers).

Section Synchronize.

Variable UpdateFloat : Type.

(** [UpdateFloat::operator float()], the conversion applied by [std::copy]
    when it writes a [float] array. *)
Variable to_float : UpdateFloat -> float.

(** [cudaGetErrorString] and [cudaSuccess] of the CUDA runtime. *)
Variable cudaGetErrorString : Z -> String.string.
Variable cudaSuccess : Z.

Record Context : Type := {
  plan : Plan;
  d_weight_updates_storage : list (list UpdateFloat);
  d_bias_updates_storage : list (list UpdateFloat)
}.

(** [UpdateFloat sync_to[n]; storage.sync(sync_to)]: the first [n] cells of
    the device array, read back. *)
Definition sync (storage : list UpdateFloat) (n : Z) : list UpdateFloat :=
  take (Z.to_nat n) storage.

(** [std::copy(sync_to, sync_to + n, dest)]: the elements of [sync_to],
    converted, overwrite the front of [dest]; what follows them stays. *)
Definition std_copy (sync_to : list UpdateFloat) (dest : list float) : list float :=
  (to_float <$> sync_to) ++ drop (length sync_to) dest.

Definition copy_weight_updates (ctx : Context) (l : Z) : host unit :=
  fun h =>
    let ni := default 0 (architecture (plan ctx) !! Z.to_nat l) in
    let w_stride := default 0 (w_strides (plan ctx) !! Z.to_nat l) in
    let sync_to :=
      sync (default [] (d_weight_updates_storage ctx !! Z.to_nat l))
           (ni * w_stride) in
    (inr tt,
     {| weight_updates :=
          alter (std_copy sync_to) (Z.to_nat l) (weight_updates h);
        bias_updates := bias_updates h |}).

Definition copy_bias_updates (ctx : Context) (l : Z) : host unit :=
  fun h =>
    let no := default 0 (architecture (plan ctx) !! Z.to_nat (l + 1)) in
    let sync_to :=
      sync (default [] (d_bias_updates_storage ctx !! Z.to_nat l)) no in
    (inr tt,
     {| weight_updates := weight_updates h;
        bias_updates :=
          alter (std_copy sync_to) (Z.to_nat l) (bias_updates h) |}).

(** [void synchronize()].  [err] is what [cudaThreadSynchronize()] returns
    once the device has finished the launched work; the storage of [ctx]
    is the device memory at that moment. *)
Definition synchronize (err : Z) (ctx : Context) : host unit :=
  (if err =? cudaSuccess then ret tt
   else throw (mkException (cudaGetErrorString err))) ;;;
  for_layers (num_layers (plan ctx)) (copy_weight_updates ctx) ;;;
  for_layers (num_layers (plan ctx)) (copy_bias_updates ctx).

End Synchronize.

Arguments plan {UpdateFloat} _.
Arguments d_weight_updates_storage {UpdateFloat} _.
Arguments d_bias_updates_storage {UpdateFloat} _.
Arguments sync {UpdateFloat} storage n.
Arguments std_copy {UpdateFloat} to_float sync_to dest.
Arguments copy_weight_updates {UpdateFloat} to_float ctx l _.
Arguments copy_bias_updates {UpdateFloat} to_float ctx l _.
Arguments synchronize {UpdateFloat} to_float cudaGetErrorString cudaSuccess err ctx _.

(** ** Notions used in the statements *)

(** The number of iterations of [for (i = start; i < bound; i += step)]. *)
Definition iterations (start bound step : Z) : nat :=
  Z.to_nat ((bound - start + step - 1) / step).

(** What a thread writes as the first error of example [x]. *)
Definition first_error (labels : Z -> Z) (fire inhibit : float) (no : Z)
    (last_output : Z -> float) (tid x : Z) : float :=
  if tid <? u32 no
  then fsub (if u32 (labels x) =? tid then fire else inhibit) (last_output x)
  else fzero.

(** The partial dot product of a thread for example [x]: the sum, in
    [double] and in the order of the visit, of [weight[i, o] * input[i]]
    over the input indices [i] it visits, the weight being
    [layer_weights[i * w_stride + o]] and the input what the thread read in
    [scratch[x * scratch_stride + i]]. *)
Definition partial_dot_product (layer_weights : WeightsAccess)
    (w_stride scratch_stride : Z) (scratch_at : Z -> Z -> mem) (o x : Z)
    (visited : list Z) : double :=
  foldl (fun sum i =>
           dadd sum
             (float_to_double
                (fmul (wa_get layer_weights (u32 (u32 (i * w_stride) + o)))
                      (scratch_at i x (scratch_index scratch_stride x i)))))
        dzero visited.

(** The order in which the update loop visits the input indices when it
    starts at [start_at]. *)
Definition rotation (ni start_at : Z) : list Z :=
  seqZ start_at (ni - start_at) ++ seqZ 0 start_at.

(** Two floating-point data that are the same number: equal, or both a
    zero (of either sign). *)
Definition same_number (a b : spec_float) : Prop :=
  a = b \/ (is_zero a = true /\ is_zero b = true).

(** What [std::copy] leaves in [weight_updates[l]] and in [bias_updates[l]]. *)
Definition weight_copy {UpdateFloat : Type} (to_float : UpdateFloat -> float)
    (ctx : Context UpdateFloat) (l : Z) : list float -> list float :=
  std_copy to_float
    (sync (default [] (d_weight_updates_storage ctx !! Z.to_nat l))
          (default 0 (architecture (plan ctx) !! Z.to_nat l)
           * default 0 (w_strides (plan ctx) !! Z.to_nat l))).

Definition bias_copy {UpdateFloat : Type} (to_float : UpdateFloat -> float)
    (ctx : Context UpdateFloat) (l : Z) : list float -> list float :=
  std_copy to_float
    (sync (default [] (d_bias_updates_storage ctx !! Z.to_nat l))
          (default 0 (architecture (plan ctx) !! Z.to_nat (l + 1)))).

(** ** train_N_examples: the accumulation of the partial sums *)







(** The examples of the chunk of thread group [block_num]: from
    [example_num_base] up to [last_example]. *)
Definition chunk (block_num examples_per_block total_num_examples : Z) : list Z :=
  seqZ (example_num_base_of block_num examples_per_block)
       (last_example_of block_num examples_per_block total_num_examples
        - example_num_base_of block_num examples_per_block).

(** ** Backprop::Context: the accumulators *)

(** The arrays the constructor allocates for the layers:
    [d_weight_updates_storage[l].init_zeroed(ni * w_stride)] and
    [d_bias_updates_storage[l].init_zeroed(no)], the product being made in
    [int].  [zero] is the zero of the accumulation type. *)
Definition Context_new {UpdateFloat : Type} (zero : UpdateFloat) (p : Plan)
    : Context UpdateFloat :=
  {| plan := p;
     d_weight_updates_storage :=
       (fun l =>
          let ni := default 0 (architecture p !! Z.to_nat l) in
          let w_stride := default 0 (w_strides p !! Z.to_nat l) in
          replicate (Z.to_nat (s32 (ni * w_stride))) zero)
       <$> seqZ 0 (num_layers p);
     d_bias_updates_storage :=
       (fun l =>
          let no := default 0 (architecture p !! Z.to_nat (l + 1)) in
          replicate (Z.to_nat no) zero)
       <$> seqZ 0 (num_layers p) |}.

(** ** train_N_examples: walking the layers *)

(** [array[i]] for an [int] array of the device, at an index within it. *)
Definition array_at (array : list Z) (i : Z) : Z :=
  default 0 (array !! Z.to_nat i).

(** The variables that move from layer to layer: the two accessors, the
    position of [this_layer_outputs] in the output log, and the dimensions
    of the layer last entered. *)
Record cursor : Type := {
  layer_weights : WeightsAccess;
  layer_biases : WeightsAccess;
  this_layer_outputs : Z;
  cur_ni : Z;
  cur_no : Z;
  cur_w_stride : Z
}.

(** What the body of the forward loop has before it for layer [l]. *)
Record fprop_view : Type := {
  fv_layer : Z;
  fv_ni : Z;
  fv_no : Z;
  fv_w_stride : Z;
  fv_weights : Z;
  fv_biases : Z;
  fv_outputs : Z
}.

(** What the body of the backward loop has before it for layer [l];
    [bv_last_outputs] is [last_layer_outputs = this_layer_outputs - ni]. *)
Record bprop_view : Type := {
  bv_layer : Z;
  bv_ni : Z;
  bv_no : Z;
  bv_w_stride : Z;
  bv_weights : Z;
  bv_outputs : Z;
  bv_last_outputs : Z
}.

(** One round of
    [for (unsigned l = 0; l < num_layers;
          ++l, layer_weights += ni * w_stride, layer_biases += no,
          this_layer_outputs += no)]:
    the dimensions are read, the body sees the cursor, the cursor moves.
    [ni * w_stride] is a product of [int]s and the offsets of the accessors
    are [int]s; [this_layer_outputs] is a pointer. *)
Definition fprop_walk_step (architecture w_strides : list Z) (l : Z)
    (st : cursor * list fprop_view) : cursor * list fprop_view :=
  let c := fst st in
  let ni := array_at architecture l in
  let no := array_at architecture (l + 1) in
  let w_stride := array_at w_strides l in
  ({| layer_weights := wa_advance (layer_weights c) (s32 (ni * w_stride));
      layer_biases := wa_advance (layer_biases c) no;
      this_layer_outputs := this_layer_outputs c + no;
      cur_ni := ni; cur_no := no; cur_w_stride := w_stride |},
   snd st ++ [{| fv_layer := l; fv_ni := ni; fv_no := no;
                 fv_w_stride := w_stride;
                 fv_weights := offset (layer_weights c);
                 fv_biases := offset (layer_biases c);
                 fv_outputs := this_layer_outputs c |}]).

(** The forward loop.  [no] and [w_stride] are not initialised before it;
    [no0] and [w_stride0] stand for whatever they hold. *)
Definition fprop_walk (fuel : nat) (num_layers : Z)
    (architecture w_strides : list Z) (w biases : WeightsAccess)
    (no0 w_stride0 : Z) : outcome (cursor * list fprop_view) :=
  for_upto fuel 0 (u32 num_layers) 1 (fprop_walk_step architecture w_strides)
    ({| layer_weights := w; layer_biases := biases; this_layer_outputs := 0;
        cur_ni := array_at architecture 0; cur_no := no0;
        cur_w_stride := w_stride0 |}, []).

(** [this_layer_outputs -= no; layer_weights -= ni * w_stride;] *)
Definition bprop_start (c : cursor) : cursor :=
  {| layer_weights :=
       wa_retreat (layer_weights c) (s32 (cur_ni c * cur_w_stride c));
     layer_biases := layer_biases c;
     this_layer_outputs := this_layer_outputs c - cur_no c;
     cur_ni := cur_ni c; cur_no := cur_no c;
     cur_w_stride := cur_w_stride c |}.

(** One round of
    [for (int l = num_layers - 1; l >= 0;
          --l, layer_weights -= (l == -1 ? 0 : architecture[l] * w_strides[l]),
          this_layer_outputs -= architecture[l + 1])];
    the decrements are evaluated with [l] already lowered. *)
Definition bprop_walk_step (architecture w_strides : list Z) (l : Z)
    (st : cursor * list bprop_view) : cursor * list bprop_view :=
  let c := fst st in
  let ni := array_at architecture l in
  let no := array_at architecture (l + 1) in
  let w_stride := array_at w_strides l in
  let l' := l - 1 in
  ({| layer_weights :=
        wa_retreat (layer_weights c)
          (if l' =? -1 then 0
           else s32 (array_at architecture l' * array_at w_strides l'));
      layer_biases := layer_biases c;
      this_layer_outputs := this_layer_outputs c - array_at architecture (l' + 1);
      cur_ni := ni; cur_no := no; cur_w_stride := w_stride |},
   snd st ++ [{| bv_layer := l; bv_ni := ni; bv_no := no;
                 bv_w_stride := w_stride;
                 bv_weights := offset (layer_weights c);
                 bv_outputs := this_layer_outputs c;
                 bv_last_outputs := this_layer_outputs c - ni |}]).

Definition bprop_walk (fuel : nat) (num_layers : Z)
    (architecture w_strides : list Z) (c : cursor)
    : outcome (cursor * list bprop_view) :=
  for_loop fuel (fun l => 0 <=? l) (fun l => l - 1)
    (bprop_walk_step architecture w_strides) (num_layers - 1)
    (bprop_start c, []).

(** The forward pass followed by the backward pass: what each saw. *)
Definition train_walk (fuel : nat) (num_layers : Z)
    (architecture w_strides : list Z) (w biases : WeightsAccess)
    (no0 w_stride0 : Z) : outcome (list fprop_view * list bprop_view) :=
  match fprop_walk fuel num_layers architecture w_strides w biases no0
          w_stride0 with
  | OutOfFuel i st => OutOfFuel i (snd st, [])
  | Done _ (c, fviews) =>
      match bprop_walk fuel num_layers architecture w_strides c with
      | OutOfFuel i st => OutOfFuel i (fviews, snd st)
      | Done i (_, bviews) => Done i (fviews, bviews)
      end
  end.

(** Where layer [l] begins in the weight buffer and in the bias buffer (the
    latter also being where its outputs begin in the output log of an
    example). *)
Definition weights_offset (architecture w_strides : list Z) (l : Z) : Z :=
  foldr Z.add 0
    ((fun j => array_at architecture j * array_at w_strides j) <$> seqZ 0 l).

Definition outputs_offset (architecture : list Z) (l : Z) : Z :=
  foldr Z.add 0 ((fun j => array_at architecture (j + 1)) <$> seqZ 0 l).

(** The views the two loops are to have of layer [l]: the layer's
    dimensions, and its places in the weight buffer, the bias buffer and
    the output log. *)
Definition fview (architecture w_strides : list Z) (w biases : WeightsAccess)
    (l : Z) : fprop_view :=
  {| fv_layer := l;
     fv_ni := array_at architecture l;
     fv_no := array_at architecture (l + 1);
     fv_w_stride := array_at w_strides l;
     fv_weights := offset w + weights_offset architecture w_strides l;
     fv_biases := offset biases + outputs_offset architecture l;
     fv_outputs := outputs_offset architecture l |}.

Definition bview (architecture w_strides : list Z) (w : WeightsAccess)
    (l : Z) : bprop_view :=
  {| bv_layer := l;
     bv_ni := array_at architecture l;
     bv_no := array_at architecture (l + 1);
     bv_w_stride := array_at w_strides l;
     bv_weights := offset w + weights_offset architecture w_strides l;
     bv_outputs := outputs_offset architecture l;
     bv_last_outputs :=
       outputs_offset architecture l - array_at architecture l |}.

(** The cursor when [n] layers have been passed, the dimensions being those
    of the layer last entered. *)
Definition cursor_at (architecture w_strides : list Z) (w biases : WeightsAccess)
    (n ni no w_stride : Z) : cursor :=
  {| layer_weights :=
       {| base := base w;
          offset := offset w + weights_offset architecture w_strides n |};
     layer_biases :=
       {| base := base biases;
          offset := offset biases + outputs_offset architecture n |};
     this_layer_outputs := outputs_offset architecture n;
     cur_ni := ni; cur_no := no; cur_w_stride := w_stride |}.

(** ** Backprop::Plan: the copy of the weights to the device *)

(** The CUDA runtime's [cudaMemcpy(dst + dst_offset, src, count,
    cudaMemcpyHostToDevice)] on [float] arrays, where it succeeds: the
    elements of [src] that [count] bytes hold are in the device array from
    [dst_offset] on. *)
Definition cudaMemcpy (dst : mem) (dst_offset : Z) (src : mem) (count : Z) : mem :=
  fun a =>
    if (dst_offset <=? a) && (a <? dst_offset + count / sizeof_float)
    then src (a - dst_offset)
    else dst a.

(** The device arrays [d_weights] and [d_biases] and the two offsets of the
    copy loop. *)
Record upload : Type := {
  d_weights : mem;
  d_biases : mem;
  weights_start_offset : Z;
  bias_start_offset : Z
}.

Section PlanCopy.

(** [size_t] holds the numbers below [size_t_modulus]. *)
Variable size_t_modulus : Z.

Variable cudaGetErrorString : Z -> String.string.
Variable cudaSuccess : Z.

Definition to_size_t (z : Z) : Z := z mod size_t_modulus.

(** The first loop of the constructor: [total_weights_size] and
    [total_bias_size], the sizes of the two device arrays.  The product
    [ni * w_stride] is made in [int] and then added to the [size_t]. *)
Definition total_sizes (num_layers : Z) (architecture w_strides : list Z)
    : Z * Z :=
  foldl (fun totals l =>
           let ni := array_at architecture l in
           let no := array_at architecture (l + 1) in
           let w_stride := array_at w_strides l in
           (to_size_t (fst totals + s32 (ni * w_stride)),
            to_size_t (snd totals + no)))
        (0, 0) (seqZ 0 (u32 num_layers)).

(** The body of the second loop.  [errs l] holds what the two calls of
    [cudaMemcpy] for layer [l] return.  [size_t w_size = ni * w_stride] and
    the increment of [weights_start_offset] are products made in [int]. *)
Definition copy_layer (architecture w_strides : list Z)
    (weights biases : Z -> mem) (errs : Z -> Z * Z) (l : Z) (u : upload)
    : Exception + upload :=
  let ni := array_at architecture l in
  let no := array_at architecture (l + 1) in
  let w_stride := array_at w_strides l in
  let w_size := to_size_t (s32 (ni * w_stride)) in
  let err := fst (errs l) in
  if negb (err =? cudaSuccess) then inl (mkException (cudaGetErrorString err))
  else
    let err := snd (errs l) in
    if negb (err =? cudaSuccess) then inl (mkException (cudaGetErrorString err))
    else
      inr {| d_weights :=
               cudaMemcpy (d_weights u) (weights_start_offset u) (weights l)
                 (to_size_t (w_size * sizeof_float));
             d_biases :=
               cudaMemcpy (d_biases u) (bias_start_offset u) (biases l)
                 (to_size_t (no * sizeof_float));
             weights_start_offset :=
               to_size_t (weights_start_offset u + s32 (ni * w_stride));
             bias_start_offset := to_size_t (bias_start_offset u + no) |}.

(** The second loop, from [weights_start_offset = 0] and
    [bias_start_offset = 0]; an exception ends it.  With [l] for
    [num_layers] it gives what iteration [l] of a longer loop starts from. *)
Definition copy_layers (num_layers : Z) (architecture w_strides : list Z)
    (weights biases : Z -> mem) (errs : Z -> Z * Z) (d_w d_b : mem)
    : Exception + upload :=
  foldl (fun r l =>
           match r with
           | inl e => inl e
           | inr u => copy_layer architecture w_strides weights biases errs l u
           end)
        (inr {| d_weights := d_w; d_biases := d_b;
                weights_start_offset := 0; bias_start_offset := 0 |})
        (seqZ 0 (u32 num_layers)).

End PlanCopy.

(** The accessor the kernel is given for a device array. *)
Definition access (m : mem) : WeightsAccess := {| base := m; offset := 0 |}.

(** The offsets the accessors take while the kernel walks the layers are
    values of [int]. *)
Definition offsets_in_int (num_layers : Z) (architecture w_strides : list Z)
    (w biases : WeightsAccess) : Prop :=
  forall n, 0 <= n <= num_layers ->
    in_int (offset w + weights_offset architecture w_strides n)
    /\ in_int (offset biases + outputs_offset architecture n).

(** The layers' dimensions are those of arrays: no size is negative, and
    the number [ni * w_stride] of the weights of a layer is an [int]. *)
Definition sizes_fit (num_layers : Z) (architecture w_strides : list Z)
    : Prop :=
  forall l, 0 <= l < num_layers ->
    0 <= array_at architecture l * array_at w_strides l < 2147483648
    /\ 0 <= array_at architecture (l + 1).

(** ** train_N_examples: the inputs in shared memory *)

(** The copy of the inputs by the threads of a group, run in the order
    [order] up to the barrier that follows. *)
Definition load_inputs_pass (N : Z) (input : mem) (ni scratch_stride : Z)
    (order : list Z) (scratch : mem) : mem :=
  foldl (fun s tid => load_inputs N input ni scratch_stride tid s)
    scratch order.

(** * Properties *)

(** ** Machine integers *)

Lemma u32_small z : 0 <= z < two32 -> u32 z = z.
Proof. intros H. unfold u32. apply Z.mod_small. exact H. Qed.

Lemma u32_range z : 0 <= u32 z < two32.
Proof. unfold u32, two32. apply Z.mod_pos_bound. lia. Qed.

Lemma s32_small z : in_int z -> s32 z = z.
Proof.
  unfold in_int, s32, two32. intros H. rewrite Z.mod_small; lia.
Qed.

Lemma s32_in_int z : in_int (s32 z).
Proof.
  unfold in_int, s32, two32.
  pose proof (Z.mod_pos_bound (z + 2147483648) 4294967296 ltac:(lia)). lia.
Qed.

(** An [int] operand may be taken before or after it wraps. *)
Lemma s32_add_s32 a b : s32 (a + s32 b) = s32 (a + b).
Proof.
  unfold s32. f_equal.
  replace (a + ((b + 2147483648) mod two32 - 2147483648) + 2147483648)
    with (a + (b + 2147483648) mod two32) by lia.
  rewrite Z.add_mod_idemp_r by (unfold two32; lia). f_equal. lia.
Qed.

Lemma s32_sub_s32 a b : s32 (a - s32 b) = s32 (a - b).
Proof.
  unfold s32. f_equal.
  replace (a - ((b + 2147483648) mod two32 - 2147483648) + 2147483648)
    with (a + 4294967296 - (b + 2147483648) mod two32) by lia.
  rewrite Zminus_mod_idemp_r. f_equal. lia.
Qed.

Lemma s32_s32 z : s32 (s32 z) = s32 z.
Proof. apply s32_small, s32_in_int. Qed.

(** ** Floating point *)

(** Multiplying by [1.0f] is exact on every finite binary32 number. *)
Lemma fmul_one_finite s m e :
  bounded fprec femax m e = true ->
  fmul fone (S754_finite s m e) = S754_finite s m e.
Proof.
  intros Hb. unfold bounded, canonical_mantissa in Hb.
  apply andb_prop in Hb as [Hc He]. apply Z.eqb_eq in Hc.
  unfold fmul, fone, SFmul. cbn [xorb].
  let shifted := eval cbv beta iota delta [Pos.mul] in (Pos.mul 8388608 m) in
  change (Pos.mul 8388608 m) with shifted.
  unfold binary_round_aux, shr_fexp.
  cbn [Zdigits2 digits2_pos shr_record_of_loc].
  set (dm := digits2_pos m) in *.
  rewrite !Pos2Z.inj_succ.
  match goal with
  | |- context [fexp _ _ ?a - ?b] =>
      replace (fexp fprec femax a - b) with 23
        by (replace a with (Z.pos dm + e) by lia; rewrite Hc; lia)
  end.
  cbn [shr SpecFloat.iter_pos shr_1 shr_m loc_of_shr_record round_nearest_even
       shr_r shr_s orb Zdigits2].
  replace (-23 + e + 23) with e by lia.
  fold dm. rewrite Hc, Z.sub_diag. cbn [shr shr_m].
  rewrite He. reflexivity.
Qed.

Lemma fmul_one_l x : is_float x = true -> fmul fone x = x.
Proof.
  destruct x as [s | s | | s m e]; intros Hx; try reflexivity.
  apply fmul_one_finite. exact Hx.
Qed.

Lemma fmul_zero_l s x :
  is_finite x = true -> is_zero (fmul (S754_zero s) x) = true.
Proof. destruct x; intros Hx; try discriminate; reflexivity. Qed.

Lemma fmul_zero_r s x :
  is_finite x = true -> is_zero (fmul x (S754_zero s)) = true.
Proof. destruct x; intros Hx; try discriminate; reflexivity. Qed.

Lemma is_zero_inv x : is_zero x = true -> exists s, x = S754_zero s.
Proof. destruct x; intros Hx; try discriminate. eauto. Qed.

Lemma is_zero_finite x : is_zero x = true -> is_finite x = true.
Proof. destruct x; intros Hx; try discriminate; reflexivity. Qed.

(** ** Activation unit *)

(** C3, as the code has it: the forward function returns tanh(x) for the
    tanh kind and x itself for the identity kind, on every float x; for
    every other kind it returns the ordinary value 0.0 and raises nothing.
    On the two supported kinds it agrees with the function of the
    specification. *)
Theorem transform_forward (tanhf : float -> float) (x : float) :
  transform tanhf x ACT_TANH = tanhf x
  /\ transform tanhf x ACT_IDENTITY = x
  /\ (forall code, transform tanhf x (ACT_OTHER code) = fzero)
  /\ forward_spec tanhf x ACT_TANH = Some (transform tanhf x ACT_TANH)
  /\ forward_spec tanhf x ACT_IDENTITY = Some (transform tanhf x ACT_IDENTITY).
Proof. repeat split. Qed.

(** C3 as stated fails: for the finite input 1.0 and an activation kind
    outside the supported set the specification's function has an error
    where the code returns the value 0.0. *)
Lemma transform_unsupported_is_value :
  is_float fone = true /\ is_finite fone = true
  /\ forward_spec (fun x => x) fone (ACT_OTHER 2) = None
  /\ transform (fun x => x) fone (ACT_OTHER 2) = fzero
  /\ forward_spec (fun x => x) fone (ACT_OTHER 2)
     <> Some (transform (fun x => x) fone (ACT_OTHER 2)).
Proof. repeat split. discriminate. Qed.

(** C5: for finite binary32 numbers, the backward function returns
    (1 - output * output) * error for the tanh kind and output * error for
    the identity kind; for the tanh kind the result is [error] itself when
    the output is zero, and is a zero when the output is 1 or -1. *)
Theorem delta_backward (output error : float)
    (Hoe : is_float error = true) (Hfe : is_finite error = true)
    (Hoo : is_float output = true) (Hfo : is_finite output = true) :
  delta output error ACT_TANH = fmul (fsub fone (fmul output output)) error
  /\ delta output error ACT_IDENTITY = fmul output error
  /\ (is_zero output = true -> delta output error ACT_TANH = error)
  /\ (output = fone \/ output = SFopp fone ->
      is_zero (delta output error ACT_TANH) = true).
Proof.
  split; [reflexivity |]. split; [reflexivity |]. split.
  - intros Hz. apply is_zero_inv in Hz as [s ->].
    unfold delta. destruct s; cbn [fmul SFmul xorb fsub SFsub fone];
      apply fmul_one_l; exact Hoe.
  - intros [-> | ->]; unfold delta.
    + change (fsub fone (fmul fone fone)) with (S754_zero false).
      apply fmul_zero_l. exact Hfe.
    + change (fsub fone (fmul (SFopp fone) (SFopp fone))) with (S754_zero false).
      apply fmul_zero_l. exact Hfe.
Qed.

Lemma delta_backward_witness :
  delta fzero fone ACT_TANH = fone
  /\ is_zero (delta fone fone ACT_TANH) = true.
Proof.
  destruct (delta_backward fzero fone eq_refl eq_refl eq_refl eq_refl)
    as (_ & _ & H0 & _).
  destruct (delta_backward fone fone eq_refl eq_refl eq_refl eq_refl)
    as (_ & _ & _ & H1).
  split; [apply H0; reflexivity | apply H1; left; reflexivity].
Defined.

(** ** Counted loops *)

Lemma iterations_inside start bound step (j : nat) :
  0 < step -> (j < iterations start bound step)%nat ->
  start + Z.of_nat j * step < bound.
Proof.
  unfold iterations. intros Hstep Hj.
  set (q := (bound - start + step - 1) / step) in *.
  assert (Hq : step * q <= bound - start + step - 1)
    by (apply Z.mul_div_le; lia).
  assert (Z.of_nat j < q) by lia. nia.
Qed.

Lemma iterations_outside start bound step :
  0 < step ->
  bound <= start + Z.of_nat (iterations start bound step) * step.
Proof.
  unfold iterations. intros Hstep.
  set (q := (bound - start + step - 1) / step) in *.
  assert (Hq : bound - start + step - 1 < step * Z.succ q)
    by (apply Z.mul_succ_div_gt; lia).
  assert (Hc : Z.of_nat (Z.to_nat q) = Z.max 0 q) by lia.
  rewrite Hc. nia.
Qed.

Lemma stride_range_S start step count :
  stride_range start step (S count)
  = start :: stride_range (start + step) step count.
Proof.
  unfold stride_range. cbn [seq fmap list_fmap]. f_equal; [lia |].
  rewrite <- seq_shift, <- list_fmap_compose.
  apply list_fmap_ext. intros _ j _. cbn. lia.
Qed.

Lemma length_stride_range start step count :
  length (stride_range start step count) = count.
Proof. unfold stride_range. rewrite length_fmap. apply length_seq. Qed.

Lemma elem_of_stride_range start step count i :
  i ∈ stride_range start step count
  <-> exists j : nat, (j < count)%nat /\ i = start + Z.of_nat j * step.
Proof.
  unfold stride_range. rewrite list_elem_of_fmap. split.
  - intros (j & -> & Hj). apply elem_of_seq in Hj. exists j. split; [lia | done].
  - intros (j & Hj & ->). exists j. split; [done |]. apply elem_of_seq. lia.
Qed.

(** A counted loop whose variable does not wrap runs [count] times and
    folds its body over the indices it visits. *)
Lemma for_upto_run {S : Type} (body : Z -> S -> S) (count : nat) :
  forall (fuel : nat) (start bound step : Z) (s : S),
    0 <= start -> 0 < step -> (count < fuel)%nat ->
    (forall j : nat, (j < count)%nat -> start + Z.of_nat j * step < bound) ->
    bound <= start + Z.of_nat count * step ->
    start + Z.of_nat count * step < two32 ->
    for_upto fuel start bound step body s
    = Done (start + Z.of_nat count * step)
           (foldl (fun s i => body i s) s (stride_range start step count)).
Proof.
  induction count as [| count IH]; intros fuel start bound step s Hs Hstep Hf Hin Hout Hw.
  - destruct fuel as [| fuel]; [lia |].
    unfold for_upto. cbn [for_loop].
    replace (start <? bound) with false by (symmetry; apply Z.ltb_ge; lia).
    cbn. f_equal. lia.
  - destruct fuel as [| fuel]; [lia |].
    unfold for_upto. cbn [for_loop].
    replace (start <? bound) with true
      by (symmetry; apply Z.ltb_lt; specialize (Hin 0%nat); lia).
    rewrite u32_small by nia.
    fold (for_upto fuel (start + step) bound step body (body start s)).
    rewrite (IH fuel (start + step) bound step (body start s));
      try lia; try nia.
    + rewrite stride_range_S. cbn [foldl]. f_equal. lia.
    + intros j Hj. specialize (Hin (Datatypes.S j)). lia.
Qed.

Lemma for_upto_iterations {S : Type} (body : Z -> S -> S)
    (fuel : nat) (start bound step : Z) (s : S) :
  0 <= start < two32 -> 0 < step -> bound + step <= two32 ->
  (iterations start bound step < fuel)%nat ->
  for_upto fuel start bound step body s
  = Done (start + Z.of_nat (iterations start bound step) * step)
         (foldl (fun s i => body i s) s
                (stride_range start step (iterations start bound step))).
Proof.
  intros Hs Hstep Hb Hf.
  apply for_upto_run; try done; try lia.
  - intros j Hj. by apply iterations_inside.
  - by apply iterations_outside.
  - destruct (iterations start bound step) as [| c] eqn:Hc; [unfold two32 in *; lia |].
    pose proof (iterations_inside start bound step c Hstep) as Hlast.
    rewrite Hc in Hlast. specialize (Hlast ltac:(lia)). lia.
Qed.

(** ** Forward pass: the thread mapping *)

(** Among the numbers below [n], those congruent to [o] modulo [no]. *)
Lemma count_residue (no o : Z) (n : nat) :
  0 < no -> 0 <= o < no ->
  Z.of_nat (length (filter (fun t => t mod no = o) (seqZ 0 (Z.of_nat n))))
  = Z.of_nat n / no + b2z (o <? Z.of_nat n mod no).
Proof.
  intros Hno Ho. induction n as [| n IH].
  - cbn. rewrite Z.mod_0_l by lia.
    replace (o <? 0) with false by (symmetry; apply Z.ltb_ge; lia). done.
  - rewrite seqZ_S, filter_app, length_app, Nat2Z.inj_add, IH.
    rewrite Z.add_0_l, Nat2Z.inj_succ. unfold Z.succ.
    set (m := Z.of_nat n). assert (Hm : 0 <= m) by lia. clearbody m.
    rewrite filter_cons, filter_nil.
    pose proof (Z.div_mod m no ltac:(lia)) as Hdm.
    pose proof (Z.mod_pos_bound m no Hno) as Hr.
    destruct (Z_lt_le_dec (m mod no + 1) no) as [Hlt | Hge].
    + assert (Hq : (m + 1) / no = m / no)
        by (symmetry; apply (Z.div_unique (m + 1) no (m / no) (m mod no + 1)); lia).
      assert (Hr' : (m + 1) mod no = m mod no + 1)
        by (symmetry; apply (Z.mod_unique (m + 1) no (m / no) (m mod no + 1)); lia).
      rewrite Hq, Hr'.
      case_decide; cbn [length]; unfold b2z;
        repeat match goal with
               | |- context [?a <? ?b] => destruct (Z.ltb_spec a b)
               end; lia.
    + assert (Hq : (m + 1) / no = m / no + 1)
        by (symmetry; apply (Z.div_unique (m + 1) no (m / no + 1) 0); lia).
      assert (Hr' : (m + 1) mod no = 0)
        by (symmetry; apply (Z.mod_unique (m + 1) no (m / no + 1) 0); lia).
      rewrite Hq, Hr'.
      case_decide; cbn [length]; unfold b2z;
        repeat match goal with
               | |- context [?a <? ?b] => destruct (Z.ltb_spec a b)
               end; lia.
Qed.

Lemma foldl_snoc_acc {A : Type} (xs acc : list A) :
  foldl (fun l i => l ++ [i]) acc xs = acc ++ xs.
Proof.
  revert acc. induction xs as [| x xs IH]; intros acc; cbn.
  - by rewrite app_nil_r.
  - rewrite IH. by rewrite <- app_assoc.
Qed.

Lemma foldl_snoc_nil {A : Type} (xs : list A) :
  foldl (fun l i => l ++ [i]) [] xs = xs.
Proof. apply foldl_snoc_acc. Qed.

Lemma fprop_thread_map_o nt no tid :
  0 < no < two32 -> o (fprop_thread_map nt no tid) = tid mod no.
Proof. intros Hno. cbn. rewrite u32_small; [done | lia]. Qed.

(** Altering the cells [0 .. n) of a list one after the other. *)
Lemma foldl_alter_lookup {A : Type} (F : Z -> A -> A) (L : list A) (n j : nat) :
  foldl (fun L l => alter (F l) (Z.to_nat l) L) L (seqZ 0 (Z.of_nat n)) !! j
  = if decide (j < n)%nat then F (Z.of_nat j) <$> L !! j else L !! j.
Proof.
  induction n as [| n IH].
  - cbn. by case_decide; [lia |].
  - rewrite seqZ_S, foldl_snoc, Z.add_0_l, Nat2Z.id.
    destruct (decide (n = j)) as [-> | Hne].
    + rewrite list_lookup_alter_eq, IH.
      repeat case_decide; try lia. done.
    + rewrite list_lookup_alter_ne, IH by done.
      repeat case_decide; try lia; done.
Qed.

Lemma seqZ_to_nat (n : Z) : seqZ 0 n = seqZ 0 (Z.of_nat (Z.to_nat n)).
Proof. unfold seqZ. by rewrite Nat2Z.id. Qed.

(** The accumulators of the partial sums: [accum[x] += ...] for every [x]
    alters the cells one after the other. *)
Lemma lookup_insert_alter {A : Type} (f : A -> A) (i : nat) (l : list A) :
  match l !! i with Some a => <[i := f a]> l | None => l end = alter f i l.
Proof.
  revert i. induction l as [| b l IH]; intros [| i]; cbn; try done.
  specialize (IH i). destruct (l !! i); cbn in *; by rewrite <- IH.
Qed.

Lemma foldl_pointwise {A B : Type} (f g : A -> B -> A) (l : list B) :
  (forall a b, f a b = g a b) -> forall a, foldl f a l = foldl g a l.
Proof.
  intros Hfg. induction l as [| b l IH]; intros a; [done |].
  cbn. by rewrite Hfg, IH.
Qed.

Lemma fprop_step_lookup (N : Z) (layer_weights : WeightsAccess)
    (w_stride scratch_stride : Z) (scratch_at : Z -> Z -> mem) (o i : Z)
    (accum : list double) (x : Z) :
  0 <= x < N ->
  fprop_step N layer_weights w_stride scratch_stride scratch_at o i accum
    !! Z.to_nat x
  = (fun a =>
       dadd a (float_to_double
                 (fmul (wa_get layer_weights (u32 (u32 (i * w_stride) + o)))
                       (scratch_at i x (scratch_index scratch_stride x i)))))
    <$> accum !! Z.to_nat x.
Proof.
  intros Hx. unfold fprop_step, FOR_ALL_X.
  rewrite (foldl_pointwise _
             (fun accum x =>
                alter (fun a =>
                         dadd a (float_to_double
                           (fmul (wa_get layer_weights
                                    (u32 (u32 (i * w_stride) + o)))
                                 (scratch_at i x
                                    (scratch_index scratch_stride x i)))))
                      (Z.to_nat x) accum))
    by (intros; apply lookup_insert_alter).
  rewrite seqZ_to_nat.
  rewrite (foldl_alter_lookup
             (fun x a =>
                dadd a (float_to_double
                  (fmul (wa_get layer_weights (u32 (u32 (i * w_stride) + o)))
                        (scratch_at i x (scratch_index scratch_stride x i)))))).
  rewrite decide_True by lia. by rewrite Z2Nat.id by lia.
Qed.

Lemma fprop_step_length (N : Z) (layer_weights : WeightsAccess)
    (w_stride scratch_stride : Z) (scratch_at : Z -> Z -> mem) (o i : Z)
    (accum : list double) :
  length (fprop_step N layer_weights w_stride scratch_stride scratch_at o i
            accum)
  = length accum.
Proof.
  unfold fprop_step, FOR_ALL_X. generalize (seqZ 0 N). intros xs.
  revert accum. induction xs as [| x xs IH]; intros accum; [done |].
  cbn [foldl]. rewrite IH. destruct (accum !! Z.to_nat x); [| done].
  apply length_insert.
Qed.

(** The loop over the visited inputs leaves in [accum[x]] the partial dot
    product of example [x]. *)
Lemma fprop_steps_partial_dot (N : Z) (layer_weights : WeightsAccess)
    (w_stride scratch_stride : Z) (scratch_at : Z -> Z -> mem) (o : Z)
    (visited : list Z) :
  let accum :=
    foldl (fun accum i =>
             fprop_step N layer_weights w_stride scratch_stride scratch_at o i
               accum)
          (replicate (Z.to_nat N) dzero) visited in
  length accum = Z.to_nat N
  /\ forall x, 0 <= x < N ->
       accum !! Z.to_nat x
       = Some (partial_dot_product layer_weights w_stride scratch_stride
                 scratch_at o x visited).
Proof.
  induction visited as [| i visited IH] using rev_ind.
  - cbn. split; [apply length_replicate |].
    intros x Hx. apply lookup_replicate_2. lia.
  - cbn zeta in *. destruct IH as [Hlen Hcells].
    rewrite foldl_snoc. split.
    + by rewrite fprop_step_length.
    + intros x Hx. rewrite fprop_step_lookup by done.
      rewrite Hcells by done. unfold partial_dot_product.
      by rewrite foldl_snoc.
Qed.

(** C6: in a layer with [no > 0] outputs and a thread group of [W] threads,
    thread [t < W] gets min_threads = W / no, left_over = W mod no, output
    o = t mod no and sub-lane idx = t / no; the number of threads of the
    group assigned to output [o] is min_threads + (o < left_over ? 1 : 0),
    which is the thread's o_threads; and, given enough iterations, its
    loop ends having visited exactly the input indices idx, idx + o_threads,
    idx + 2 * o_threads, ... below [ni], in this order, and leaves in
    [accum[x]], for every example [x] of the batch, the partial dot product
    over these indices: the sum of weight[i, o] times the input [i] it read
    in scratch, whatever the other threads of the group did to the scratch
    meanwhile. *)
Theorem fprop_thread_mapping (W no ni t : Z) (fuel : nat)
    (N : Z) (layer_weights : WeightsAccess) (w_stride scratch_stride : Z)
    (scratch_at : Z -> Z -> mem)
    (Hno : 0 < no < 2147483648) (HW : 0 <= W < 2147483648)
    (Hni : 0 <= ni < 2147483648) (Ht : 0 <= t < W) :
  let tm := fprop_thread_map W no t in
  let visited := stride_range (idx tm) (o_threads tm)
                   (iterations (idx tm) ni (o_threads tm)) in
  min_threads tm = W / no
  /\ left_over tm = W mod no
  /\ o tm = t mod no
  /\ idx tm = t / no
  /\ o_threads tm = min_threads tm + b2z (o tm <? left_over tm)
  /\ Z.of_nat (length (filter (fun t' => o (fprop_thread_map W no t') = o tm)
                              (seqZ 0 W)))
     = o_threads tm
  /\ ((iterations (idx tm) ni (o_threads tm) < fuel)%nat ->
      (exists i, fprop_visited fuel ni no W t = Done i visited)
      /\ (exists i accum,
            fprop_partial_sums fuel N layer_weights ni no w_stride W
              scratch_stride scratch_at t
            = Done i accum
            /\ length accum = Z.to_nat N
            /\ forall x, 0 <= x < N ->
                 accum !! Z.to_nat x
                 = Some (partial_dot_product layer_weights w_stride
                           scratch_stride scratch_at (o tm) x visited)))
  /\ (forall i, i ∈ visited
      <-> 0 <= i < ni /\ exists j, 0 <= j /\ i = idx tm + j * o_threads tm).
Proof.
  intros tm visited.
  assert (Hu : u32 no = no) by (apply u32_small; unfold two32; lia).
  assert (Hmin : min_threads tm = W / no)
    by (cbn; apply Z.quot_div_nonneg; lia).
  assert (Hleft : left_over tm = W mod no)
    by (cbn; apply Z.rem_mod_nonneg; lia).
  assert (Ho : o tm = t mod no) by (cbn; by rewrite Hu).
  assert (Hidx : idx tm = t / no) by (cbn; by rewrite Hu).
  assert (Hot : o_threads tm = min_threads tm + b2z (o tm <? left_over tm))
    by reflexivity.
  pose proof (Z.mod_pos_bound t no ltac:(lia)) as Hobound.
  pose proof (Z.mod_pos_bound W no ltac:(lia)) as Hlbound.
  pose proof (Z.div_mod W no ltac:(lia)) as HWdm.
  pose proof (Z.div_mod t no ltac:(lia)) as Htdm.
  assert (Hq0 : 0 <= W / no) by (apply Z.div_pos; lia).
  assert (Hi0 : 0 <= t / no) by (apply Z.div_pos; lia).
  assert (Hpos : 0 < o_threads tm).
  { rewrite Hot, Hmin, Ho, Hleft. unfold b2z.
    destruct (Z.ltb_spec (t mod no) (W mod no)); [lia |].
    destruct (Z.eq_dec (W / no) 0) as [Hz | Hz]; [| lia].
    rewrite Hz in HWdm. lia. }
  assert (Hotle : o_threads tm <= 2147483648).
  { rewrite Hot, Hmin. unfold b2z.
    assert (W / no <= W) by (apply Z.div_le_upper_bound; nia).
    destruct (_ <? _); lia. }
  assert (Hidxle : 0 <= idx tm < two32)
    by (rewrite Hidx; unfold two32; split; [lia |];
        assert (t / no <= t) by (apply Z.div_le_upper_bound; nia); lia).
  repeat split; try done.
  - rewrite Hot, Hmin, Hleft, Ho.
    rewrite <- (Z2Nat.id W) by lia.
    rewrite <- (count_residue no (t mod no) (Z.to_nat W)) by lia.
    do 2 f_equal. apply list_filter_iff. intros t'.
    by rewrite !fprop_thread_map_o by (unfold two32; lia).
  - exists (idx tm + Z.of_nat (iterations (idx tm) ni (o_threads tm)) * o_threads tm).
    unfold fprop_visited. fold tm.
    rewrite (u32_small ni) by (unfold two32; lia).
    rewrite for_upto_iterations by (unfold two32 in *; lia).
    f_equal. apply foldl_snoc_nil.
  - exists (idx tm + Z.of_nat (iterations (idx tm) ni (o_threads tm)) * o_threads tm).
    eexists. split.
    + unfold fprop_partial_sums. fold tm.
      rewrite (u32_small ni) by (unfold two32; lia).
      by rewrite for_upto_iterations by (unfold two32 in *; lia).
    + apply fprop_steps_partial_dot.
  - apply elem_of_stride_range in H as (j & Hj & ->). lia.
  - apply elem_of_stride_range in H as (j & Hj & ->).
    by apply iterations_inside.
  - apply elem_of_stride_range in H as (j & Hj & ->).
    exists (Z.of_nat j). split; [lia | done].
  - intros ((Hi0' & Hilt) & j & Hj & ->).
    apply elem_of_stride_range. exists (Z.to_nat j).
    rewrite Z2Nat.id by lia. split; [| done].
    pose proof (iterations_outside (idx tm) ni (o_threads tm) Hpos).
    assert (j < Z.of_nat (iterations (idx tm) ni (o_threads tm))) by nia.
    lia.
Qed.

Lemma fprop_thread_mapping_witness :
  (0 < 16 < 2147483648 /\ 0 <= 100 < 2147483648
   /\ 0 <= 20 < 2147483648 /\ 0 <= 3 < 100)
  /\ Z.of_nat (length (filter
       (fun t' => o (fprop_thread_map 100 16 t') = o (fprop_thread_map 100 16 3))
       (seqZ 0 100))) = 7
  /\ fprop_visited 10 20 16 100 3 = Done 21 [0; 7; 14]
  /\ fprop_partial_sums 10 1 {| base := fun _ => fone; offset := 0 |} 20 16
       16 100 100 (fun _ _ _ => fone) 3
     = Done 21 [S754_finite false 6755399441055744 (-51)].
Proof.
  split; [lia |].
  destruct (fprop_thread_mapping 100 16 20 3 10 1
              {| base := fun _ => fone; offset := 0 |} 16 100
              (fun _ _ _ => fone)
              ltac:(lia) ltac:(lia) ltac:(lia) ltac:(lia))
    as (_ & _ & _ & _ & _ & Hcount & Hloop & _).
  split; [exact Hcount |].
  destruct (Hloop ltac:(vm_compute; lia)) as [_ (i & accum & Hrun & _ & _)].
  split; reflexivity.
Defined.

(** ** Device memory: loops of stores *)

Lemma store_eq (m : mem) a v : store m a v a = v.
Proof. unfold store. by rewrite Z.eqb_refl. Qed.

Lemma store_ne (m : mem) a a' v : a' <> a -> store m a v a' = m a'.
Proof. intros Hne. unfold store. by apply Z.eqb_neq in Hne as ->. Qed.

(** A fold of writers over a list: a cell that exactly one element of the
    list writes holds what that element writes. *)
Lemma foldl_writers {A : Type} (F : A -> mem -> mem)
    (cells : A -> Z -> bool) (val : A -> Z -> float) :
  (forall y s a, cells y a = false -> F y s a = s a) ->
  (forall y s a, cells y a = true -> F y s a = val y a) ->
  forall (l : list A) (s : mem) (a : Z) (y : A),
    y ∈ l -> cells y a = true ->
    (forall y', y' ∈ l -> cells y' a = true -> y' = y) ->
    foldl (fun s y => F y s) s l a = val y a.
Proof.
  intros Hother Hown l. induction l as [| z l IH] using rev_ind;
    intros s a y Hin Hc Huniq.
  - by apply elem_of_nil in Hin.
  - rewrite foldl_snoc.
    destruct (cells z a) eqn:Hz.
    + rewrite Hown by done. f_equal. apply Huniq; [| done].
      apply elem_of_app. right. by apply list_elem_of_singleton.
    + rewrite Hother by done.
      apply IH; [| done |].
      * apply elem_of_app in Hin as [Hin | Hin]; [done |].
        apply list_elem_of_singleton in Hin. subst. congruence.
      * intros y' Hy'. apply Huniq. apply elem_of_app. by left.
Qed.

Lemma foldl_writers_other {A : Type} (F : A -> mem -> mem)
    (cells : A -> Z -> bool) :
  (forall y s a, cells y a = false -> F y s a = s a) ->
  forall (l : list A) (s : mem) (a : Z),
    (forall y, y ∈ l -> cells y a = false) ->
    foldl (fun s y => F y s) s l a = s a.
Proof.
  intros Hother l. induction l as [| z l IH] using rev_ind; intros s a Hno.
  - done.
  - rewrite foldl_snoc, Hother.
    + apply IH. intros y Hy. apply Hno, elem_of_app. by left.
    + apply Hno, elem_of_app. right. by apply list_elem_of_singleton.
Qed.

(** ** Scratch indices *)

Lemma scratch_index_small scratch_stride x tid :
  0 <= x -> 0 <= tid < scratch_stride -> (x + 1) * scratch_stride <= two32 ->
  scratch_index scratch_stride x tid = x * scratch_stride + tid.
Proof.
  intros Hx Ht Hb. unfold scratch_index.
  rewrite (u32_small (x * scratch_stride)) by nia.
  apply u32_small. nia.
Qed.

Lemma scratch_index_inj scratch_stride N x tid x' tid' :
  0 <= x < N -> 0 <= x' < N ->
  0 <= tid < scratch_stride -> 0 <= tid' < scratch_stride ->
  N * scratch_stride <= two32 ->
  scratch_index scratch_stride x tid = scratch_index scratch_stride x' tid' ->
  x = x' /\ tid = tid'.
Proof.
  intros Hx Hx' Ht Ht' Hb.
  rewrite !scratch_index_small by nia. intros Heq.
  assert (x = x') by nia. subst x'. lia.
Qed.

(** ** Forward pass: the outputs of a layer *)

Lemma layer_output_index_small block_num total_neurons layer_base x tid :
  0 <= x -> 0 <= tid < total_neurons -> (x + 1) * total_neurons <= two32 ->
  layer_output_index block_num total_neurons layer_base x tid
  = u32 (block_num * total_neurons) + layer_base + (x * total_neurons + tid).
Proof.
  intros Hx Ht Hb. unfold layer_output_index. rewrite (u32_small (_ + _)); [done |].
  nia.
Qed.

(** X15: what a thread stores at the end of a layer is, for each example of
    the batch, the same value in scratch and in the output log: the
    activation of the sum it found in scratch. *)
Lemma fprop_store_shared_agree (tanhf : float -> float) (N : Z)
    (activation : Activation)
    (no scratch_stride total_neurons block_num layer_base tid : Z)
    (scratch layer_outputs : mem) (x : Z) :
  0 <= x < N -> 0 <= tid < no -> no < 2147483648 ->
  tid < scratch_stride -> N * scratch_stride <= two32 ->
  tid < total_neurons -> N * total_neurons <= two32 ->
  let memory :=
    fprop_store_shared tanhf N activation no scratch_stride total_neurons
      block_num layer_base tid (scratch, layer_outputs) in
  let out :=
    transform tanhf (scratch (scratch_index scratch_stride x tid)) activation in
  fst memory (scratch_index scratch_stride x tid) = out
  /\ snd memory (layer_output_index block_num total_neurons layer_base x tid)
     = out.
Proof.
  intros Hx Ht Hno Hts Hfs Htt Hft memory out. subst memory out.
  unfold fprop_store_shared.
  rewrite (u32_small no) by (unfold two32; lia).
  replace (tid <? no) with true by (symmetry; apply Z.ltb_lt; lia).
  unfold FOR_ALL_X.
  set (sidx := fun x => scratch_index scratch_stride x tid).
  set (lidx := fun x => layer_output_index block_num total_neurons layer_base x tid).
  set (body := fun (memory : mem * mem) (y : Z) =>
                (store (fst memory) (sidx y)
                   (transform tanhf (fst memory (sidx y)) activation),
                 store (snd memory) (lidx y)
                   (transform tanhf (fst memory (sidx y)) activation))).
  change (fst (foldl body (scratch, layer_outputs) (seqZ 0 N)) (sidx x)
          = transform tanhf (scratch (sidx x)) activation
          /\ snd (foldl body (scratch, layer_outputs) (seqZ 0 N)) (lidx x)
             = transform tanhf (scratch (sidx x)) activation).
  assert (Hsinj : forall a b, 0 <= a < N -> 0 <= b < N -> sidx a = sidx b -> a = b).
  { intros a b Ha Hb Heq.
    apply (scratch_index_inj scratch_stride N) in Heq; lia. }
  assert (Hlinj : forall a b, 0 <= a < N -> 0 <= b < N -> lidx a = lidx b -> a = b).
  { intros a b Ha Hb. unfold lidx.
    rewrite !layer_output_index_small by nia. nia. }
  assert (Hpre : forall n : nat, Z.of_nat n <= N ->
            forall y, 0 <= y < N ->
              let memory := foldl body (scratch, layer_outputs)
                              (seqZ 0 (Z.of_nat n)) in
              fst memory (sidx y)
              = (if y <? Z.of_nat n
                 then transform tanhf (scratch (sidx y)) activation
                 else scratch (sidx y))
              /\ snd memory (lidx y)
                 = (if y <? Z.of_nat n
                    then transform tanhf (scratch (sidx y)) activation
                    else layer_outputs (lidx y))).
  { induction n as [| n IH]; intros Hn y Hy.
    - change (Z.of_nat 0) with 0. rewrite seqZ_nil by lia. cbn.
      destruct (Z.ltb_spec y 0); [lia | done].
    - rewrite seqZ_S, foldl_snoc, Z.add_0_l. cbn zeta.
      destruct (IH ltac:(lia) y Hy) as [IHs IHl].
      destruct (IH ltac:(lia) (Z.of_nat n) ltac:(lia)) as [IHn _].
      cbn zeta in IHs, IHl, IHn.
      replace (Z.of_nat n <? Z.of_nat n) with false in IHn
        by (symmetry; apply Z.ltb_ge; lia).
      unfold body at 1 3. cbn [fst snd].
      destruct (Z.eq_dec y (Z.of_nat n)) as [-> | Hne].
      + rewrite !store_eq, IHn.
        replace (Z.of_nat n <? Z.of_nat (S n)) with true
          by (symmetry; apply Z.ltb_lt; lia).
        done.
      + rewrite !store_ne, IHs, IHl.
        * destruct (Z.ltb_spec y (Z.of_nat n)), (Z.ltb_spec y (Z.of_nat (S n)));
            try done; lia.
        * intros Heq. apply Hlinj in Heq; lia.
        * intros Heq. apply Hsinj in Heq; lia. }
  specialize (Hpre (Z.to_nat N) ltac:(lia) x Hx). cbn zeta in Hpre.
  rewrite Z2Nat.id in Hpre by lia.
  replace (x <? N) with true in Hpre by (symmetry; apply Z.ltb_lt; lia).
  exact Hpre.
Qed.

(** ** Backward pass: the first error calculation *)

Section FirstError.

Variable N : Z.
Variable labels : Z -> Z.
Variable fire inhibit : float.
Variable no scratch_stride nthreads : Z.

Hypothesis HN : 0 <= N.
Hypothesis Hthreads : 0 <= nthreads <= scratch_stride.
Hypothesis Hfit : N * scratch_stride <= two32.

Lemma first_error_thread_own last_output scratch x tid :
  0 <= x < N -> 0 <= tid < nthreads ->
  first_error_thread N labels fire inhibit no scratch_stride tid
    last_output scratch (scratch_index scratch_stride x tid)
  = first_error labels fire inhibit no last_output tid x.
Proof.
  intros Hx Ht. unfold first_error_thread, FOR_ALL_X.
  fold (first_error labels fire inhibit no last_output tid).
  apply (foldl_writers
           (fun x s => store s (scratch_index scratch_stride x tid)
                         (first_error labels fire inhibit no last_output tid x))
           (fun x a => a =? scratch_index scratch_stride x tid)
           (fun x _ => first_error labels fire inhibit no last_output tid x)).
  - intros y s a Ha. apply store_ne. by apply Z.eqb_neq.
  - intros y s a Ha. apply Z.eqb_eq in Ha as ->. apply store_eq.
  - apply elem_of_seqZ. lia.
  - apply Z.eqb_refl.
  - intros x' Hx' Heq. apply elem_of_seqZ in Hx'.
    apply Z.eqb_eq in Heq. symmetry in Heq.
    apply (scratch_index_inj scratch_stride N) in Heq; lia.
Qed.

Lemma first_error_thread_other last_output scratch tid a :
  (forall x, 0 <= x < N -> a <> scratch_index scratch_stride x tid) ->
  first_error_thread N labels fire inhibit no scratch_stride tid
    last_output scratch a
  = scratch a.
Proof.
  intros Ha. unfold first_error_thread, FOR_ALL_X.
  apply (foldl_writers_other
           (fun x s => store s (scratch_index scratch_stride x tid)
                         (first_error labels fire inhibit no last_output tid x))
           (fun x a => a =? scratch_index scratch_stride x tid)).
  - intros y s a' Hne. apply store_ne. by apply Z.eqb_neq.
  - intros x Hx. apply elem_of_seqZ in Hx. apply Z.eqb_neq, Ha. lia.
Qed.

Lemma first_error_pass_prefix scratch x tid (n : nat) :
  0 <= x < N -> 0 <= tid < nthreads -> Z.of_nat n <= nthreads ->
  foldl (fun s tid =>
           first_error_thread N labels fire inhibit no scratch_stride tid
             (read_last_output scratch_stride tid scratch) s)
    scratch (seqZ 0 (Z.of_nat n)) (scratch_index scratch_stride x tid)
  = if tid <? Z.of_nat n
    then first_error labels fire inhibit no
           (read_last_output scratch_stride tid scratch) tid x
    else scratch (scratch_index scratch_stride x tid).
Proof.
  intros Hx Ht. induction n as [| n IH]; intros Hn.
  - change (Z.of_nat 0) with 0. rewrite seqZ_nil by lia. cbn [foldl].
    destruct (Z.ltb_spec tid 0); [lia | done].
  - rewrite seqZ_S, foldl_snoc, Z.add_0_l.
    destruct (Z.eq_dec tid (Z.of_nat n)) as [Heq | Hne].
    + rewrite <- Heq. rewrite first_error_thread_own by lia.
      destruct (Z.ltb_spec tid (Z.of_nat (S n))); [done | lia].
    + rewrite first_error_thread_other.
      * rewrite IH by lia.
        destruct (Z.ltb_spec tid (Z.of_nat n)), (Z.ltb_spec tid (Z.of_nat (S n)));
          try done; lia.
      * intros x' Hx' Heq.
        apply (scratch_index_inj scratch_stride N) in Heq; lia.
Qed.

End FirstError.

(** C7: once the forward pass has left the top layer's outputs in scratch,
    the first error calculation deposits, for example [x] of the batch and
    thread [tid] of the group, the target (fire when labels[x] == tid,
    inhibit otherwise) minus the output found in scratch at [(x, tid)] when
    [tid] is below the final layer's width [no], and 0 when [tid] is at or
    above [no]. *)
Theorem first_error_deposited (N : Z) (labels : Z -> Z) (fire inhibit : float)
    (no scratch_stride nthreads : Z) (scratch : mem) (x tid : Z)
    (Hthreads : 0 <= nthreads <= scratch_stride)
    (Hblock : nthreads <= 2147483648)
    (Hfit : N * scratch_stride <= two32)
    (Hno : 0 <= no < 2147483648)
    (Hlabel : -2147483648 <= labels x < 2147483648)
    (Hx : 0 <= x < N) (Htid : 0 <= tid < nthreads) :
  first_error_pass N labels fire inhibit no scratch_stride nthreads scratch
    (scratch_index scratch_stride x tid)
  = if tid <? no
    then fsub (if labels x =? tid then fire else inhibit)
              (scratch (scratch_index scratch_stride x tid))
    else fzero.
Proof.
  unfold first_error_pass.
  rewrite <- (Z2Nat.id nthreads) at 1 by lia.
  rewrite (first_error_pass_prefix N labels fire inhibit no scratch_stride
             nthreads) by lia.
  replace (tid <? Z.of_nat (Z.to_nat nthreads)) with true
    by (symmetry; apply Z.ltb_lt; lia).
  unfold first_error, read_last_output.
  rewrite (u32_small no) by (unfold two32; lia).
  replace (u32 (labels x) =? tid) with (labels x =? tid); [done |].
  destruct (Z_lt_le_dec (labels x) 0) as [Hneg | Hpos].
  - assert (Hu : u32 (labels x) = labels x + two32).
    { unfold u32. symmetry.
      apply (Z.mod_unique (labels x) two32 (-1)); unfold two32; lia. }
    rewrite Hu. unfold two32.
    destruct (Z.eqb_spec (labels x) tid), (Z.eqb_spec (labels x + 4294967296) tid);
      try done; lia.
  - by rewrite u32_small by (unfold two32; lia).
Qed.

Lemma first_error_deposited_witness :
  (0 <= 3 <= 3 /\ 3 <= 2147483648 /\ 4 * 3 <= two32 /\ 0 <= 2 < 2147483648
   /\ -2147483648 <= 1 < 2147483648 /\ 0 <= 2 < 4 /\ 0 <= 1 < 3)
  /\ first_error_pass 4 (fun _ => 1) fone (SFopp fone) 2 3 3 (fun _ => fzero)
       (scratch_index 3 2 1)
     = fone.
Proof.
  split; [unfold two32; lia |].
  exact (first_error_deposited 4 (fun _ => 1) fone (SFopp fone) 2 3 3
           (fun _ => fzero) 2 1
           ltac:(lia) ltac:(lia) ltac:(unfold two32; lia) ltac:(lia)
           ltac:(lia) ltac:(lia) ltac:(lia)).
Defined.

(** ** Backward pass: the staggered gradient update *)

Lemma rotation_permutation ni start_at :
  0 <= start_at <= ni -> rotation ni start_at ≡ₚ seqZ 0 ni.
Proof.
  intros Hs. unfold rotation.
  replace ni with (start_at + (ni - start_at)) at 2 by lia.
  rewrite seqZ_app by lia. rewrite Z.add_0_l. apply Permutation_app_comm.
Qed.

Lemma stride_range_seqZ start (count : nat) :
  stride_range start 1 count = seqZ start (Z.of_nat count).
Proof.
  revert start. induction count as [| count IH]; intros start.
  - done.
  - rewrite stride_range_S, IH, (seqZ_cons start) by lia.
    do 2 f_equal; lia.
Qed.

Lemma real_index_rotation ni start_at :
  0 < ni < 2147483648 -> 0 <= start_at < ni ->
  real_index ni <$> seqZ start_at ni = rotation ni start_at.
Proof.
  intros Hni Hs. unfold rotation.
  replace ni with ((ni - start_at) + start_at) at 2 by lia.
  rewrite seqZ_app, fmap_app by lia. f_equal.
  - rewrite <- (list_fmap_id (seqZ start_at (ni - start_at))) at 2.
    apply list_fmap_ext. intros pos i Hi.
    apply list_elem_of_lookup_2, elem_of_seqZ in Hi.
    unfold real_index. rewrite (u32_small ni) by (unfold two32; lia).
    replace (ni <=? i) with false by (symmetry; apply Z.leb_gt; lia).
    cbn. rewrite u32_small; unfold two32; lia.
  - replace (start_at + (ni - start_at)) with ni by lia.
    replace (seqZ ni start_at) with (Z.add ni <$> seqZ 0 start_at)
      by (rewrite fmap_add_seqZ; f_equal; lia).
    rewrite <- list_fmap_compose.
    rewrite <- (list_fmap_id (seqZ 0 start_at)) at 2.
    apply list_fmap_ext. intros pos i Hi.
    apply list_elem_of_lookup_2, elem_of_seqZ in Hi.
    cbn. unfold real_index. rewrite (u32_small ni) by (unfold two32; lia).
    replace (ni <=? ni + i) with true by (symmetry; apply Z.leb_le; lia).
    cbn. rewrite u32_small; unfold two32; lia.
Qed.

Lemma iterations_unit start n :
  0 <= n -> iterations start (n + start) 1 = Z.to_nat n.
Proof.
  intros Hn. unfold iterations. f_equal. rewrite Z.div_1_r. lia.
Qed.

(** The staggered loop folds its body over the rotation of [0 .. ni). *)
Lemma stagger_loop_run {S : Type} (body : Z -> S -> S) (fuel : nat)
    (ni start_at : Z) (s : S) :
  0 < ni < 2147483648 -> 0 <= start_at < ni -> (Z.to_nat ni < fuel)%nat ->
  stagger_loop fuel ni start_at body s
  = Done (ni + start_at) (foldl (fun s i => body i s) s (rotation ni start_at)).
Proof.
  intros Hni Hs Hf. unfold stagger_loop.
  rewrite (u32_small (ni + start_at)) by (unfold two32; lia).
  rewrite for_upto_iterations; rewrite ?iterations_unit;
    try (unfold two32; lia).
  rewrite Z2Nat.id by lia. f_equal; [lia |].
  rewrite stride_range_seqZ, Z2Nat.id by lia.
  rewrite <- real_index_rotation by done.
  by rewrite foldl_fmap.
Qed.

Lemma start_at_range block_num ni num_threads_in_block :
  0 < ni < 2147483648 ->
  0 <= start_at_of block_num ni num_threads_in_block < ni.
Proof.
  intros Hni. unfold start_at_of.
  rewrite (u32_small ni) by (unfold two32; lia).
  apply Z.mod_pos_bound. lia.
Qed.

Lemma start_at_zero ni num_threads_in_block :
  0 < ni < 2147483648 -> start_at_of 0 ni num_threads_in_block = 0.
Proof.
  intros Hni. unfold start_at_of. rewrite Z.mul_0_l.
  change (u32 0) with 0. apply Z.mod_0_l.
  rewrite u32_small; unfold two32; lia.
Qed.

(** Folding steps that commute over two lists, in either order. *)
Lemma foldl_commute_step {A S : Type} (step : S -> A -> S) (a : A) (B : list A) :
  (forall b s, b ∈ B -> step (step s a) b = step (step s b) a) ->
  forall s, foldl step (step s a) B = step (foldl step s B) a.
Proof.
  induction B as [| b B IH]; intros Hc s; [done |].
  cbn [foldl]. rewrite Hc by apply list_elem_of_here.
  apply IH. intros b' s' Hb'. apply Hc. by apply list_elem_of_further.
Qed.

Lemma foldl_app_commute {A S : Type} (step : S -> A -> S) (A1 A2 : list A) :
  (forall a b s, a ∈ A1 -> b ∈ A2 -> step (step s a) b = step (step s b) a) ->
  forall s, foldl step s (A1 ++ A2) = foldl step s (A2 ++ A1).
Proof.
  intros Hc s. rewrite !foldl_app. revert s.
  induction A1 as [| a A1 IH]; intros s; [done |].
  cbn [foldl]. rewrite IH.
  - f_equal. apply foldl_commute_step.
    intros b s' Hb. apply Hc; [apply list_elem_of_here | done].
  - intros a' b s' Ha' Hb. apply Hc; [by apply list_elem_of_further | done].
Qed.









Section GradientLaunchFacts.

Variable UpdateFloat : Type.
Variable atomic_add_cell : UpdateFloat -> double -> UpdateFloat.
Variable l : Z.
Variable input_stride total_neurons : Z.
Variable learning_rate : float.
Variable w_stride : Z.

Hypothesis Hadd :
  forall cell a b,
    atomic_add_cell (atomic_add_cell cell a) b
    = atomic_add_cell (atomic_add_cell cell b) a.




End GradientLaunchFacts.



(** ** Backward pass: zero example weight or zero learning rate *)

Lemma k_of_zero example_weights learning_rate x :
  is_finite (example_weights x) = true -> is_finite learning_rate = true ->
  is_zero (example_weights x) = true \/ is_zero learning_rate = true ->
  is_zero (k_of example_weights learning_rate x) = true.
Proof.
  intros Hw Hr [Hz | Hz]; unfold k_of.
  - apply is_zero_inv in Hz as [s ->]. by apply fmul_zero_l.
  - apply is_zero_inv in Hz as [s ->]. by apply fmul_zero_r.
Qed.

Lemma dadd_zero_r total s :
  same_number (dadd total (float_to_double (S754_zero s))) total.
Proof.
  destruct total as [[] | [] | | [] m e], s; cbn; try (by left);
    right; done.
Qed.

Lemma dadd_dzero_zero s : dadd dzero (float_to_double (S754_zero s)) = dzero.
Proof. by destruct s. Qed.

(** C8, as the code has it: for an example whose inputs, layer outputs and
    deltas are finite and whose weight and the learning rate are finite, if
    the weight is zero or the learning rate is zero then the term the
    example contributes to every weight update, prev * k[x] * d[x], and to
    every bias update, k[x] * d[x], is exactly zero, and adding it leaves the
    running sum handed to the atomic add the same number. *)
Theorem zero_weight_or_rate_contributes_zero (example_weights : Z -> float)
    (learning_rate prev dx : float) (x : Z) (total_update : double)
    (Hprev : is_finite prev = true) (Hd : is_finite dx = true)
    (Hw : is_finite (example_weights x) = true)
    (Hr : is_finite learning_rate = true)
    (Hzero : is_zero (example_weights x) = true
             \/ is_zero learning_rate = true) :
  let kx := k_of example_weights learning_rate x in
  is_zero (weight_update_term prev kx dx) = true
  /\ is_zero (bias_update_term kx dx) = true
  /\ same_number
       (dadd total_update (float_to_double (weight_update_term prev kx dx)))
       total_update
  /\ same_number
       (dadd total_update (float_to_double (bias_update_term kx dx)))
       total_update.
Proof.
  intros kx.
  pose proof (k_of_zero example_weights learning_rate x Hw Hr Hzero) as Hk.
  fold kx in Hk. apply is_zero_inv in Hk as [sk Hk].
  assert (Hwt : is_zero (weight_update_term prev kx dx) = true).
  { unfold weight_update_term. rewrite Hk.
    pose proof (fmul_zero_r sk prev Hprev) as Hz.
    apply is_zero_inv in Hz as [s ->]. by apply fmul_zero_l. }
  assert (Hbt : is_zero (bias_update_term kx dx) = true).
  { unfold bias_update_term. rewrite Hk. by apply fmul_zero_l. }
  split; [done |]. split; [done |].
  apply is_zero_inv in Hwt as [s1 ->]. apply is_zero_inv in Hbt as [s2 ->].
  split; apply dadd_zero_r.
Qed.

Lemma zero_weight_or_rate_contributes_zero_witness :
  (is_finite fone = true /\ is_finite fone = true /\ is_finite fzero = true
   /\ is_finite fone = true
   /\ (is_zero fzero = true \/ is_zero fone = true))
  /\ is_zero (weight_update_term fone (k_of (fun _ => fzero) fone 0) fone) = true
  /\ is_zero (bias_update_term (k_of (fun _ => fzero) fone 0) fone) = true.
Proof.
  split; [repeat split; by left |].
  pose proof (zero_weight_or_rate_contributes_zero (fun _ => fzero) fone fone
                fone 0 dzero eq_refl eq_refl eq_refl eq_refl
                (or_introl eq_refl))
    as (Hw & Hb & _).
  split; [exact Hw | exact Hb].
Defined.

(** C8 as stated fails: the weight of the example is zero and its input,
    layer output and delta are the finite 1.0, but with an infinite
    learning rate [k[x]] is a NaN and so are both contributions. *)
Lemma zero_weight_infinite_rate_is_nan :
  let example_weights := fun _ : Z => fzero in
  let learning_rate := S754_infinity false in
  let kx := k_of example_weights learning_rate 0 in
  is_zero (example_weights 0) = true
  /\ is_finite fone = true
  /\ weight_update_term fone kx fone = S754_nan
  /\ bias_update_term kx fone = S754_nan
  /\ is_zero (weight_update_term fone kx fone) = false
  /\ is_zero (bias_update_term kx fone) = false.
Proof. repeat split. Qed.

(** When the contribution of every example of the batch is zero, the sum
    handed to the atomic add is exactly [0.0]. *)
Lemma sum_of_zero_terms (term : Z -> float) (xs : list Z) :
  (forall x, x ∈ xs -> is_zero (term x) = true) ->
  foldl (fun total x => dadd total (float_to_double (term x))) dzero xs = dzero.
Proof.
  induction xs as [| x xs IH] using rev_ind; intros Hall; [done |].
  rewrite foldl_snoc, IH.
  - destruct (is_zero_inv (term x)) as [s ->]; [| apply dadd_dzero_zero].
    apply Hall, elem_of_app. right. by apply list_elem_of_singleton.
  - intros y Hy. apply Hall, elem_of_app. by left.
Qed.

Lemma total_weight_update_all_zero (N : Z) (prev k d : Z -> float) :
  (forall x, 0 <= x < N ->
             is_zero (weight_update_term (prev x) (k x) (d x)) = true) ->
  total_weight_update N prev k d = dzero.
Proof.
  intros Hall. unfold total_weight_update, FOR_ALL_X.
  apply (sum_of_zero_terms
           (fun x => weight_update_term (prev x) (k x) (d x))).
  intros x Hx. apply elem_of_seqZ in Hx. apply Hall. lia.
Qed.

Lemma total_bias_update_all_zero (N : Z) (k d : Z -> float) :
  (forall x, 0 <= x < N -> is_zero (bias_update_term (k x) (d x)) = true) ->
  total_bias_update N k d = dzero.
Proof.
  intros Hall. unfold total_bias_update, FOR_ALL_X.
  apply (sum_of_zero_terms (fun x => bias_update_term (k x) (d x))).
  intros x Hx. apply elem_of_seqZ in Hx. apply Hall. lia.
Qed.

(** ** The dispatch loops of the kernel *)

Lemma foldl_calls N (l : list Z) (calls : list dispatch) :
  foldl (fun calls example_num => calls ++ [call N example_num]) calls l
  = calls ++ (call N <$> l).
Proof.
  revert calls. induction l as [| e l IH]; intros calls; cbn.
  - by rewrite app_nil_r.
  - rewrite IH. by rewrite <- app_assoc.
Qed.

(** A dispatch loop whose bound did not wrap issues the calls of its
    stride range. *)
Lemma dispatch_loop_run (fuel : nat) (N bound example_num : Z)
    (calls : list dispatch) :
  0 <= example_num < two32 -> 0 < N -> bound + N <= two32 ->
  (iterations example_num bound N < fuel)%nat ->
  dispatch_loop fuel N bound example_num calls
  = Done (example_num + Z.of_nat (iterations example_num bound N) * N)
         (calls ++ (call N <$> stride_range example_num N
                                 (iterations example_num bound N))).
Proof.
  intros He HN Hb Hf. unfold dispatch_loop.
  rewrite for_upto_iterations by done. f_equal. apply foldl_calls.
Qed.

(** The loop for batches of 8 when [last_example] is below 7: the bound
    [last_example - 7] has wrapped to at least 2^32 - 7, no multiple of 8
    reaches it, and the loop never leaves. *)
Lemma dispatch_loop_8_wrapped (bound : Z) (fuel : nat) :
  two32 - 7 <= bound ->
  forall (example_num : Z) (calls : list dispatch),
    0 <= example_num < two32 -> example_num mod 8 = 0 ->
    exists i more,
      dispatch_loop fuel 8 bound example_num calls
      = OutOfFuel i (calls ++ more)
      /\ length more = fuel
      /\ (forall c, c ∈ more -> batch_size c = 8)
      /\ (0 < fuel -> head more = Some (call 8 example_num))%nat.
Proof.
  intros Hbound. induction fuel as [| fuel IH]; intros example_num calls He Hm.
  - exists example_num, []. rewrite app_nil_r.
    split; [done |]. split; [done |]. split; [| lia].
    intros c Hc. by apply elem_of_nil in Hc.
  - assert (Hlt : example_num < bound).
    { pose proof (Z.div_mod example_num 8 ltac:(lia)) as Hdm.
      unfold two32 in *. lia. }
    assert (Hnext : 0 <= u32 (example_num + 8) < two32) by apply u32_range.
    assert (Hnm : u32 (example_num + 8) mod 8 = 0).
    { unfold u32, two32.
      change 4294967296 with (8 * 536870912).
      rewrite Z.rem_mul_r by lia.
      rewrite Z.mul_comm, Z.mod_add by lia.
      rewrite Z.mod_mod by lia.
      rewrite <- Z.add_mod_idemp_l, Hm by lia. done. }
    destruct (IH (u32 (example_num + 8)) (calls ++ [call 8 example_num])
                Hnext Hnm) as (i & more & Hrun & Hlen & Hall & _).
    exists i, (call 8 example_num :: more).
    unfold dispatch_loop, for_upto in *. cbn [for_loop].
    replace (example_num <? bound) with true by (symmetry; by apply Z.ltb_lt).
    rewrite Hrun, <- app_assoc. cbn [app].
    split; [done |]. split; [cbn; lia |]. split; [| done].
    intros c Hc. apply elem_of_cons in Hc as [-> | Hc]; [done | by apply Hall].
Qed.

Lemma stride_range_fmap start step (count : nat) :
  stride_range start step count
  = (fun j => start + step * j) <$> seqZ 0 (Z.of_nat count).
Proof.
  induction count as [| count IH].
  - done.
  - rewrite seqZ_S, fmap_app, <- IH. unfold stride_range.
    rewrite seq_S, fmap_app. cbn. do 3 f_equal. lia.
Qed.

(** The examples read by [n] consecutive calls of batch size [N]. *)
Lemma examples_read_calls (N start : Z) (n : nat) :
  0 <= N ->
  mjoin (examples_read <$> ((fun j => call N (start + N * j))
                              <$> seqZ 0 (Z.of_nat n)))
  = seqZ start (N * Z.of_nat n).
Proof.
  intros HN. induction n as [| n IH].
  - cbn. by rewrite Z.mul_0_r.
  - rewrite seqZ_S, !fmap_app, join_app, IH. cbn [fmap list_fmap mjoin list_join].
    rewrite app_nil_r. unfold examples_read, call. cbn.
    rewrite <- seqZ_app by lia. f_equal. lia.
Qed.

Lemma examples_read_single_calls (start : Z) (n : nat) :
  mjoin (examples_read <$> ((fun j => call 1 (start + j))
                              <$> seqZ 0 (Z.of_nat n)))
  = seqZ start (Z.of_nat n).
Proof.
  rewrite <- (Z.mul_1_l (Z.of_nat n)) at 2.
  rewrite <- examples_read_calls by lia. do 2 f_equal.
  apply list_fmap_ext. intros pos j _. f_equal. lia.
Qed.

(** X4: for a chunk whose [last_example] is at least 7 the bounds do not
    wrap: the kernel issues the dispatch the specification describes, and
    the calls read every example of the chunk once, in order, and no
    other. *)
Lemma train_examples_kernel_long_chunk (fuel : nat)
    (block_num examples_per_block total_num_examples : Z) :
  let example_num_base := block_num * examples_per_block in
  let last_example :=
    Z.min total_num_examples (example_num_base + examples_per_block) in
  0 <= block_num -> 0 < examples_per_block ->
  example_num_base + examples_per_block < two32 ->
  0 <= total_num_examples < two32 ->
  7 <= last_example -> example_num_base <= last_example ->
  (Z.to_nat (last_example - example_num_base) < fuel)%nat ->
  train_examples_kernel fuel block_num examples_per_block total_num_examples
  = Done last_example (dispatch_spec example_num_base last_example)
  /\ mjoin (examples_read <$> dispatch_spec example_num_base last_example)
     = seqZ example_num_base (last_example - example_num_base).
Proof.
  intros base last Hb Hepb Hfit Htotal H7 Hchunk Hfuel.
  set (n := last - base) in *.
  assert (Hn : 0 <= n) by lia.
  pose proof (Z.div_mod n 8 ltac:(lia)) as Hd8.
  pose proof (Z.mod_pos_bound n 8 ltac:(lia)) as Hr8.
  pose proof (Z.div_mod (n mod 8) 4 ltac:(lia)) as Hd4.
  pose proof (Z.mod_pos_bound (n mod 8) 4 ltac:(lia)) as Hr4.
  assert (Hq8 : 0 <= n / 8) by (apply Z.div_pos; lia).
  assert (Hq4 : 0 <= n mod 8 / 4) by (apply Z.div_pos; lia).
  assert (Hit8 : iterations base (last - 7) 8 = Z.to_nat (n / 8)).
  { unfold iterations. do 2 f_equal. unfold n. lia. }
  assert (Hit4 : iterations (base + n / 8 * 8) (last - 3) 4
                 = Z.to_nat (n mod 8 / 4)).
  { unfold iterations. do 2 f_equal. unfold n in *. lia. }
  assert (Hit1 : iterations (base + n / 8 * 8 + n mod 8 / 4 * 4) last 1
                 = Z.to_nat ((n mod 8) mod 4)).
  { unfold iterations. rewrite Z.div_1_r. f_equal. unfold n in *. lia. }
  split.
  - unfold train_examples_kernel, last_example_of, example_num_base_of.
    fold base. rewrite (u32_small base) by (unfold two32 in *; nia).
    rewrite (u32_small total_num_examples) by done.
    rewrite (u32_small (base + _)) by (unfold two32 in *; nia).
    fold last.
    rewrite (u32_small (last - 7)), (u32_small (last - 3))
      by (unfold two32 in *; lia).
    rewrite dispatch_loop_run
      by (rewrite ?Hit8; unfold two32, n in *; lia).
    rewrite Hit8, Z2Nat.id by lia.
    rewrite dispatch_loop_run
      by (rewrite ?Hit4; unfold two32, n in *; lia).
    rewrite Hit4, Z2Nat.id by lia.
    rewrite dispatch_loop_run
      by (rewrite ?Hit1; unfold two32, n in *; lia).
    rewrite Hit1, Z2Nat.id by lia.
    f_equal; [unfold n in *; lia |].
    unfold dispatch_spec. fold n.
    rewrite !stride_range_fmap, !Z2Nat.id by lia.
    rewrite <- !list_fmap_compose, <- app_assoc. cbn [app].
    apply (f_equal2 app); [done | apply (f_equal2 app)];
      apply list_fmap_ext; intros pos j _; cbn; f_equal; lia.
  - unfold dispatch_spec. fold n.
    rewrite !fmap_app, !join_app.
    rewrite <- (Z2Nat.id (n / 8)), <- (Z2Nat.id (n mod 8 / 4)),
      <- (Z2Nat.id ((n mod 8) mod 4)) by lia.
    rewrite !examples_read_calls, examples_read_single_calls by lia.
    rewrite !Z2Nat.id by lia.
    rewrite <- !seqZ_app by lia. f_equal. lia.
Qed.

(** C1, where the code departs from it: thread group 0 of the launch the
    Context makes (4 examples per group) for 4 examples.  Its chunk is
    [0, 4), yet [last_example - 7] wraps to 2^32 - 3, so the first call is
    a batch of 8 at example 0, which reads the examples 0 to 7; every
    further call is a batch of 8 too and, however many iterations are
    allowed, the loop for batches of 8 has not ended. *)
Theorem train_examples_kernel_first_group (fuel : nat) :
  example_num_base_of 0 4 = 0
  /\ last_example_of 0 4 4 = 4
  /\ examples_read (call 8 0) = [0; 1; 2; 3; 4; 5; 6; 7]
  /\ exists i more,
       train_examples_kernel (S fuel) 0 4 4 = OutOfFuel i (call 8 0 :: more)
       /\ forall c, c ∈ more -> batch_size c = 8.
Proof.
  split; [done |]. split; [done |]. split; [done |].
  destruct (dispatch_loop_8_wrapped (u32 (last_example_of 0 4 4 - 7)) (S fuel)
              ltac:(by vm_compute) 0 [] ltac:(done) ltac:(done))
    as (i & more & Hrun & _ & Hall & Hhead).
  specialize (Hhead ltac:(lia)).
  destruct more as [| c more]; [done |].
  injection Hhead as ->.
  exists i, more. split.
  - unfold train_examples_kernel.
    change (example_num_base_of 0 4) with 0. by rewrite Hrun.
  - intros c Hc. apply Hall. by apply list_elem_of_further.
Qed.

(** ** Plan: the shared scratch *)

Lemma foldl_max_le (l : list Z) (acc : Z) : acc <= foldl Z.max acc l.
Proof.
  revert acc. induction l as [| w l IH]; intros acc; cbn; [lia |].
  specialize (IH (Z.max acc w)). lia.
Qed.

Lemma plan_max_width_nonneg num_layers architecture w_strides :
  0 <= plan_max_width (Plan_new num_layers architecture w_strides).
Proof. cbn. apply foldl_max_le. Qed.

Lemma scratch_elements_value size_t_modulus num_layers architecture w_strides :
  16 * plan_max_width (Plan_new num_layers architecture w_strides) + 32
    < 2147483648 ->
  2147483648 <= size_t_modulus ->
  scratch_elements size_t_modulus (Plan_new num_layers architecture w_strides)
  = 4 * plan_max_width (Plan_new num_layers architecture w_strides) + 8.
Proof.
  intros Hint Hsize.
  pose proof (plan_max_width_nonneg num_layers architecture w_strides) as H0.
  unfold scratch_elements, shared_mem_size.
  cbn [shared_mem_stride plan_max_width Plan_new] in *.
  set (m := foldl Z.max 0 _) in *.
  unfold sizeof_float, sizeof_double.
  rewrite (s32_small (m * 4)) by (unfold in_int; lia).
  rewrite (s32_small (m * 4 * 4)) by (unfold in_int; lia).
  rewrite Z.mod_small by lia.
  rewrite Z.quot_div_nonneg by lia.
  replace (m * 4 * 4 + 4 * 8) with ((4 * m + 8) * 4) by lia.
  apply Z.div_mul. lia.
Qed.

(** The shared scratch handed to the launch holds 4 * max_width floats and
    4 doubles.  A batch of [N] examples whose [max_width * N] floats are no
    more than that (every batch of 4 or of 1, and a batch of 8 for a width
    of at most 2) has every scratch index x * max_width + tid with x < N
    and tid < max_width inside it. *)
Lemma scratch_within_shared_memory (size_t_modulus num_layers : Z)
    (architecture w_strides : list Z) (N x tid : Z) :
  let p := Plan_new num_layers architecture w_strides in
  plan_max_width p * N <= 4 * plan_max_width p + 8 ->
  0 <= x < N -> 0 <= tid < threads p ->
  16 * plan_max_width p + 32 < 2147483648 ->
  2147483648 <= size_t_modulus ->
  shared_mem_size size_t_modulus p
  = 4 * plan_max_width p * sizeof_float + 4 * sizeof_double
  /\ plan_max_width p * N <= scratch_elements size_t_modulus p
  /\ 0 <= scratch_index (plan_max_width p) x tid
       < scratch_elements size_t_modulus p.
Proof.
  intros p HN Hx Htid Hint Hsize.
  pose proof (plan_max_width_nonneg num_layers architecture w_strides) as H0.
  pose proof (scratch_elements_value size_t_modulus num_layers architecture
                w_strides Hint Hsize) as He.
  fold p in H0, He.
  change (threads p) with (plan_max_width p) in Htid.
  split.
  - unfold shared_mem_size, sizeof_float, sizeof_double.
    change (shared_mem_stride p) with (s32 (plan_max_width p * sizeof_float)).
    unfold sizeof_float.
    rewrite (s32_small (plan_max_width p * 4)) by (unfold in_int; lia).
    rewrite (s32_small (plan_max_width p * 4 * 4)) by (unfold in_int; lia).
    rewrite Z.mod_small by lia. lia.
  - split; [lia |].
    assert (Hxm : 0 <= x * plan_max_width p
                  <= (N - 1) * plan_max_width p) by nia.
    rewrite scratch_index_small; [rewrite He; nia | lia | lia |].
    unfold two32. nia.
Qed.

(** C2, where the code departs from it: the launch [Context::execute]
    makes for a mini-batch of 4 examples of the network [3; 1].  The Plan
    hands the launch 80 bytes of shared memory, which are 20 floats (4
    examples of the widest layer, and 4 doubles), whatever the width of
    [size_t]; the grid has one thread group, whose chunk is [0, 4); its
    first call is a batch of 8 at example 0, the bound [last_example - 7]
    having wrapped; and in that call thread 2, copying the inputs, stores
    element 23 of the feature vectors in [scratch[7 * 3 + 2]], element 23 of
    a scratch of 20. *)
Theorem scratch_overrun_on_launch :
  let p := Plan_new 1 [3; 1] [1] in
  plan_max_width p = 3
  /\ threads p = 3
  /\ shared_mem_size 4294967296 p = 80
  /\ shared_mem_size 18446744073709551616 p = 80
  /\ scratch_elements 4294967296 p = 20
  /\ scratch_elements 18446744073709551616 p = 20
  /\ grid_size_of 4 = 1
  /\ train_examples_kernel 1 0 num_examples_per_invocation 4
     = OutOfFuel 8 [call 8 0]
  /\ (0 <= 7 < batch_size (call 8 0) /\ 0 <= 2 < threads p)
  /\ scratch_index (plan_max_width p) 7 2 = 23
  /\ forall (input scratch : mem),
       load_inputs (batch_size (call 8 0)) input (array_at (architecture p) 0)
         (plan_max_width p) 2 scratch 23
       = input 23.
Proof.
  repeat (split; [by vm_compute |]).
  intros input scratch. reflexivity.
Qed.

(** ** Context: the global output log *)

(** Consecutive thread groups share cells of the output log: example
    [x + 1] of group [block_num] and example [x] of group [block_num + 1]
    have the same element. *)
Lemma layer_output_index_next_group (block_num total_neurons layer_base x tid : Z) :
  0 <= block_num -> 0 <= total_neurons -> 0 <= x -> 0 <= tid ->
  (block_num + 1) * total_neurons < two32 ->
  (x + 1) * total_neurons + tid < two32 ->
  layer_output_index block_num total_neurons layer_base (x + 1) tid
  = layer_output_index (block_num + 1) total_neurons layer_base x tid.
Proof.
  intros Hb HT Hx Ht Hfit Hfit'. unfold layer_output_index.
  rewrite !u32_small by nia. lia.
Qed.

(** C10, where the code departs from it: a network of widths 2 and 1 (3
    neurons in all) trained on 12 examples.  The log has 36 elements for 3
    thread groups; groups 1 and 2 each make one call of batch size 4, and
    the output of example 1 of group 1 and that of example 0 of group 2 go
    to the same element, 6, of the log: the slices of the two groups
    overlap.  When group 1 has stored its outputs (all 1.0 here) and group 2
    then stores its own (all -1.0), the output that the backward pass of
    group 1 reads for its example 1 is the one of group 2. *)
Theorem layer_outputs_groups_overlap :
  let p := Plan_new 1 [2; 1] [1] in
  let T := plan_total_neurons p in
  let stride := plan_max_width p in
  let store_outputs := fun block_num scratch layer_outputs =>
    snd (fprop_store_shared (fun v => v) 4 ACT_IDENTITY 1 stride T block_num
           0 0 (scratch, layer_outputs)) in
  let log1 := store_outputs 1 (fun _ => fone) (fun _ => fzero) in
  let log2 := store_outputs 2 (fun _ => SFopp fone) log1 in
  T = 3
  /\ grid_size_of 12 = 3
  /\ layer_outputs_size p 12 = 36
  /\ train_examples_kernel 3 1 num_examples_per_invocation 12
     = Done 8 [call 4 4]
  /\ train_examples_kernel 3 2 num_examples_per_invocation 12
     = Done 12 [call 4 8]
  /\ layer_output_index 1 T 0 1 0 = 6
  /\ layer_output_index 2 T 0 0 0 = 6
  /\ log1 (layer_output_index 1 T 0 1 0) = fone
  /\ log2 (layer_output_index 1 T 0 1 0) = SFopp fone.
Proof. vm_compute. repeat split. Qed.

(** ** Context::synchronize *)

Lemma for_layers_weights {UpdateFloat : Type} (to_float : UpdateFloat -> float)
    (ctx : Context UpdateFloat) (n : Z) (h : host_buffers float) :
  for_layers n (copy_weight_updates to_float ctx) h
  = (inr tt,
     {| weight_updates :=
          foldl (fun buffers l =>
                   alter (weight_copy to_float ctx l) (Z.to_nat l) buffers)
                (weight_updates h) (seqZ 0 n);
        bias_updates := bias_updates h |}).
Proof.
  unfold for_layers. revert h.
  induction (seqZ 0 n) as [| l ls IH]; intros h.
  - by destruct h.
  - cbn [foldr foldl]. unfold bind at 1. cbn [copy_weight_updates].
    by rewrite IH.
Qed.

Lemma for_layers_biases {UpdateFloat : Type} (to_float : UpdateFloat -> float)
    (ctx : Context UpdateFloat) (n : Z) (h : host_buffers float) :
  for_layers n (copy_bias_updates to_float ctx) h
  = (inr tt,
     {| weight_updates := weight_updates h;
        bias_updates :=
          foldl (fun buffers l =>
                   alter (bias_copy to_float ctx l) (Z.to_nat l) buffers)
                (bias_updates h) (seqZ 0 n) |}).
Proof.
  unfold for_layers. revert h.
  induction (seqZ 0 n) as [| l ls IH]; intros h.
  - by destruct h.
  - cbn [foldr foldl]. unfold bind at 1. cbn [copy_bias_updates].
    by rewrite IH.
Qed.

(** C9: [synchronize] returns what the wait for the device returns.  If
    that is an error, it throws an exception carrying the runtime's text for
    the error and the caller's buffers are as they were.  Otherwise it
    returns normally and, for every layer, the weight buffer and the bias
    buffer of the caller begin with the layer's accumulators, each one
    converted to float. *)
Theorem synchronize_copies_or_throws {UpdateFloat : Type}
    (to_float : UpdateFloat -> float)
    (cudaGetErrorString : Z -> String.string) (cudaSuccess err : Z)
    (ctx : Context UpdateFloat) (h : host_buffers float) :
  (err <> cudaSuccess ->
   synchronize to_float cudaGetErrorString cudaSuccess err ctx h
   = (inl (mkException (cudaGetErrorString err)), h))
  /\ (err = cudaSuccess ->
      exists h',
        synchronize to_float cudaGetErrorString cudaSuccess err ctx h
        = (inr tt, h')
        /\ forall l, 0 <= l < num_layers (plan ctx) ->
             let ni := default 0 (architecture (plan ctx) !! Z.to_nat l) in
             let no := default 0 (architecture (plan ctx) !! Z.to_nat (l + 1)) in
             let w_stride := default 0 (w_strides (plan ctx) !! Z.to_nat l) in
             let d_weights :=
               take (Z.to_nat (ni * w_stride))
                    (default [] (d_weight_updates_storage ctx !! Z.to_nat l)) in
             let d_biases :=
               take (Z.to_nat no)
                    (default [] (d_bias_updates_storage ctx !! Z.to_nat l)) in
             (forall dest, weight_updates h !! Z.to_nat l = Some dest ->
                weight_updates h' !! Z.to_nat l
                = Some ((to_float <$> d_weights) ++ drop (length d_weights) dest))
             /\ (forall dest, bias_updates h !! Z.to_nat l = Some dest ->
                   bias_updates h' !! Z.to_nat l
                   = Some ((to_float <$> d_biases) ++ drop (length d_biases) dest))).
Proof.
  split.
  - intros Herr. unfold synchronize, bind.
    by apply Z.eqb_neq in Herr as ->.
  - intros ->. eexists. split.
    + unfold synchronize. rewrite Z.eqb_refl. unfold bind at 1. cbn [ret].
      unfold bind at 1. rewrite for_layers_weights.
      rewrite for_layers_biases. cbn [weight_updates bias_updates].
      reflexivity.
    + intros l Hl ni no w_stride d_weights d_biases.
      cbn [weight_updates bias_updates].
      rewrite <- (Z2Nat.id (num_layers (plan ctx))) by lia.
      rewrite !foldl_alter_lookup.
      rewrite !decide_True by lia. rewrite Z2Nat.id by lia.
      split; intros dest ->; reflexivity.
Qed.

Lemma synchronize_copies_or_throws_witness :
  let to_float := fun cell : Z => if cell =? 0 then fzero else fone in
  let cudaGetErrorString := fun _ : Z => "unspecified launch failure"%string in
  let ctx := {| plan := Plan_new 1 [1; 1] [1];
                d_weight_updates_storage := [[5]];
                d_bias_updates_storage := [[0]] |} in
  let h := {| weight_updates := [[fzero]]; bias_updates := [[fone]] |} in
  (4 <> 0
   /\ synchronize to_float cudaGetErrorString 0 4 ctx h
      = (inl (mkException "unspecified launch failure"), h))
  /\ (0 = 0
      /\ exists h',
           synchronize to_float cudaGetErrorString 0 0 ctx h = (inr tt, h')
           /\ weight_updates h' !! 0%nat = Some [fone]
           /\ bias_updates h' !! 0%nat = Some [fzero]).
Proof.
  intros to_float cudaGetErrorString ctx h.
  destruct (synchronize_copies_or_throws to_float cudaGetErrorString 0 4 ctx h)
    as [Hthrow _].
  destruct (synchronize_copies_or_throws to_float cudaGetErrorString 0 0 ctx h)
    as [_ Hcopy].
  split; [split; [lia | apply Hthrow; lia] |].
  split; [done |].
  destruct (Hcopy eq_refl) as (h' & Hrun & Hall).
  exists h'. split; [exact Hrun |].
  destruct (Hall 0 ltac:(by vm_compute)) as [Hw Hb].
  split; [exact (Hw [fzero] eq_refl) | exact (Hb [fone] eq_refl)].
Defined.

(** * Further properties of the kernel and of the host code *)

(** ** The dispatch loops *)

Lemma train_examples_kernel_long_chunk_witness :
  (0 <= 2 /\ 0 < 16 /\ 2 * 16 + 16 < two32 /\ 0 <= 45 < two32
   /\ 7 <= Z.min 45 (2 * 16 + 16) /\ 2 * 16 <= Z.min 45 (2 * 16 + 16)
   /\ (Z.to_nat (Z.min 45 (2 * 16 + 16) - 2 * 16) < 20)%nat)
  /\ train_examples_kernel 20 2 16 45
     = Done 45 [call 8 32; call 4 40; call 1 44].
Proof.
  split; [unfold two32; lia |].
  exact (proj1 (train_examples_kernel_long_chunk 20 2 16 45
                  ltac:(lia) ltac:(lia) ltac:(unfold two32; lia)
                  ltac:(unfold two32; lia) ltac:(lia) ltac:(lia) ltac:(lia))).
Defined.

(** ** Forward pass: who accumulates what *)

Section ThreadFacts.

Variables W no t : Z.
Hypothesis Hno : 0 < no < 2147483648.
Hypothesis HW : 0 <= W < 2147483648.
Hypothesis Ht : 0 <= t < W.

Lemma thread_map_values :
  let tm := fprop_thread_map W no t in
  min_threads tm = W / no /\ left_over tm = W mod no
  /\ o tm = t mod no /\ idx tm = t / no
  /\ max_threads tm = W / no + b2z (0 <? W mod no)
  /\ o_threads tm = W / no + b2z (t mod no <? W mod no).
Proof.
  assert (Hu : u32 no = no) by (apply u32_small; unfold two32; lia).
  cbn. rewrite Hu, Z.quot_div_nonneg, Z.rem_mod_nonneg by lia. done.
Qed.

Lemma thread_map_turn :
  let tm := fprop_thread_map W no t in
  0 <= o tm < no
  /\ 0 <= idx tm < o_threads tm
  /\ o_threads tm <= max_threads tm
  /\ t = o tm + idx tm * no.
Proof.
  destruct thread_map_values as (_ & _ & Ho & Hi & Hm & Hot).
  cbn zeta. rewrite Ho, Hi, Hm, Hot.
  pose proof (Z.mod_pos_bound t no ltac:(lia)) as Hob.
  pose proof (Z.mod_pos_bound W no ltac:(lia)) as Hlb.
  pose proof (Z.div_mod W no ltac:(lia)) as HWdm.
  pose proof (Z.div_mod t no ltac:(lia)) as Htdm.
  assert (0 <= t / no) by (apply Z.div_pos; lia).
  assert (0 <= W / no) by (apply Z.div_pos; lia).
  unfold b2z.
  destruct (Z.ltb_spec (t mod no) (W mod no)), (Z.ltb_spec 0 (W mod no));
    repeat split; try lia; nia.
Qed.

End ThreadFacts.

Lemma iterations_le start bound step :
  0 <= start -> 0 < step -> 0 <= bound ->
  (iterations start bound step <= Z.to_nat bound)%nat.
Proof.
  intros Hs Hstep Hb. unfold iterations.
  assert ((bound - start + step - 1) / step <= bound); [| lia].
  destruct (Z_le_gt_dec bound start).
  - assert ((bound - start + step - 1) / step < 1); [| lia].
    apply Z.div_lt_upper_bound; lia.
  - apply Z.div_le_upper_bound; nia.
Qed.

Lemma fprop_visited_run (W no ni t : Z) (fuel : nat) :
  0 < no < 2147483648 -> 0 <= W < 2147483648 -> 0 <= ni < 2147483648 ->
  0 <= t < W -> (Z.to_nat ni < fuel)%nat ->
  let tm := fprop_thread_map W no t in
  fprop_visited fuel ni no W t
  = Done (idx tm + Z.of_nat (iterations (idx tm) ni (o_threads tm)) * o_threads tm)
         (stride_range (idx tm) (o_threads tm)
            (iterations (idx tm) ni (o_threads tm))).
Proof.
  intros Hno HW Hni Ht Hfuel tm.
  destruct (thread_map_turn W no t Hno HW Ht) as (Ho & Hidx & Hot & Hsplit).
  destruct (thread_map_values W no t Hno HW) as (_ & _ & _ & Hi & Hm & _).
  fold tm in Ho, Hidx, Hot, Hsplit, Hi, Hm.
  assert (Hmax : max_threads tm <= W + 1).
  { rewrite Hm. assert (W / no <= W) by (apply Z.div_le_upper_bound; nia).
    unfold b2z. destruct (_ <? _); lia. }
  assert (Hidxle : idx tm <= t).
  { rewrite Hi. apply Z.div_le_upper_bound; nia. }
  pose proof (iterations_le (idx tm) ni (o_threads tm)) as Hle.
  unfold fprop_visited. fold tm.
  rewrite (u32_small ni) by (unfold two32; lia).
  rewrite for_upto_iterations by (unfold two32 in *; lia).
  f_equal. apply foldl_snoc_nil.
Qed.

Lemma elem_of_visited (k ot ni i : Z) :
  0 <= k < ot ->
  i ∈ stride_range k ot (iterations k ni ot) <-> 0 <= i < ni /\ i mod ot = k.
Proof.
  intros Hk. rewrite elem_of_stride_range. split.
  - intros (j & Hj & ->). split.
    + pose proof (iterations_inside k ni ot j ltac:(lia) Hj). nia.
    + rewrite Z.mod_add by lia. apply Z.mod_small. lia.
  - intros (Hi & Hmod).
    pose proof (Z.div_mod i ot ltac:(lia)) as Hdm.
    assert (0 <= i / ot) by (apply Z.div_pos; lia).
    exists (Z.to_nat (i / ot)). rewrite Z2Nat.id by lia. split; [| lia].
    pose proof (iterations_outside k ni ot ltac:(lia)).
    assert (i / ot < Z.of_nat (iterations k ni ot)) by nia.
    lia.
Qed.

(** X1: in a layer with [no] outputs worked by a group of [W >= no] threads,
    every product weight[i, o] * input[i] with [o < no] and [i < ni] is
    accumulated by exactly one thread: among the threads assigned to output
    [o] there is one, and only one, whose loop visits the input [i]. *)
Theorem fprop_inputs_partitioned (W no ni o' i : Z) (fuel : nat)
    (Hno : 0 < no < 2147483648) (HW : no <= W < 2147483648)
    (Hni : 0 <= ni < 2147483648) (Ho : 0 <= o' < no) (Hi : 0 <= i < ni)
    (Hfuel : (Z.to_nat ni < fuel)%nat) :
  let accumulates := fun t =>
    0 <= t < W /\ o (fprop_thread_map W no t) = o'
    /\ exists j visited,
         fprop_visited fuel ni no W t = Done j visited /\ i ∈ visited in
  exists t, accumulates t /\ forall t', accumulates t' -> t' = t.
Proof.
  intros accumulates.
  set (ot := W / no + b2z (o' <? W mod no)).
  pose proof (Z.mod_pos_bound W no ltac:(lia)) as Hlb.
  pose proof (Z.div_mod W no ltac:(lia)) as HWdm.
  assert (Hq1 : 1 <= W / no) by (apply Z.div_le_lower_bound; lia).
  assert (Hot : 0 < ot) by (unfold ot, b2z; destruct (_ <? _); lia).
  pose proof (Z.mod_pos_bound i ot Hot) as Hk.
  set (k := i mod ot) in *.
  assert (Htk : 0 <= o' + k * no < W).
  { unfold ot, b2z in Hk. destruct (Z.ltb_spec o' (W mod no)); nia. }
  assert (Hmodk : (o' + k * no) mod no = o')
    by (rewrite Z.mod_add by lia; apply Z.mod_small; lia).
  assert (Hdivk : (o' + k * no) / no = k)
    by (rewrite Z.div_add by lia; rewrite Z.div_small by lia; lia).
  assert (Hthread : forall t, 0 <= t < W ->
            o (fprop_thread_map W no t) = o' ->
            o_threads (fprop_thread_map W no t) = ot
            /\ 0 <= idx (fprop_thread_map W no t) < ot
            /\ t = o' + idx (fprop_thread_map W no t) * no).
  { intros t Ht Hto.
    destruct (thread_map_values W no t Hno ltac:(lia))
      as (_ & _ & Hov & _ & _ & Hotv).
    destruct (thread_map_turn W no t Hno ltac:(lia) Ht)
      as (_ & Hidx & _ & Hsplit).
    cbn zeta in *. rewrite Hov in Hto. rewrite Hto in Hotv.
    fold ot in Hotv. rewrite <- Hto, <- Hov. rewrite Hotv in Hidx. done. }
  assert (Hok : o (fprop_thread_map W no (o' + k * no)) = o').
  { destruct (thread_map_values W no (o' + k * no) Hno ltac:(lia))
      as (_ & _ & Hov & _). cbn zeta in Hov. by rewrite Hov. }
  exists (o' + k * no). split.
  - split; [done |]. split; [done |].
    destruct (Hthread _ Htk Hok) as (Hotv & Hidx & Hsplit).
    eexists _, _. split.
    + apply fprop_visited_run; try done; lia.
    + rewrite Hotv.
      assert (Hik : idx (fprop_thread_map W no (o' + k * no)) = k) by nia.
      rewrite Hik. apply elem_of_visited; [lia |]. done.
  - intros t' (Ht' & Hto' & j & visited & Hrun & Hin).
    destruct (Hthread _ Ht' Hto') as (Hotv & Hidx & Hsplit).
    rewrite fprop_visited_run in Hrun by (try done; lia).
    injection Hrun as _ <-.
    change (i ∈ stride_range (idx (fprop_thread_map W no t'))
                  (o_threads (fprop_thread_map W no t'))
                  (iterations (idx (fprop_thread_map W no t')) ni
                     (o_threads (fprop_thread_map W no t')))) in Hin.
    rewrite Hotv in Hin. apply elem_of_visited in Hin; [| lia].
    destruct Hin as [_ Hin]. fold k in Hin. rewrite Hsplit, Hin. done.
Qed.

Lemma fprop_inputs_partitioned_witness :
  (0 < 16 < 2147483648 /\ 16 <= 100 < 2147483648 /\ 0 <= 20 < 2147483648
   /\ 0 <= 3 < 16 /\ 0 <= 9 < 20 /\ (Z.to_nat 20 < 21)%nat)
  /\ exists t,
       (0 <= t < 100 /\ o (fprop_thread_map 100 16 t) = 3
        /\ exists j visited,
             fprop_visited 21 20 16 100 t = Done j visited /\ 9 ∈ visited)
       /\ forall t',
            (0 <= t' < 100 /\ o (fprop_thread_map 100 16 t') = 3
             /\ exists j visited,
                  fprop_visited 21 20 16 100 t' = Done j visited
                  /\ 9 ∈ visited) ->
            t' = t.
Proof.
  split; [lia |].
  exact (fprop_inputs_partitioned 100 16 20 3 9 21 ltac:(lia) ltac:(lia)
           ltac:(lia) ltac:(lia) ltac:(lia) ltac:(lia)).
Defined.

(** ** Device memory: loops that read and write one cell each *)

Section ReadModifyWrite.

Context {A : Type}.
Variable body : A -> mem -> mem.
Variable cell : A -> Z.
Variable upd : A -> float -> float.

Hypothesis body_cell :
  forall y s a,
    body y s a = if a =? cell y then upd y (s (cell y)) else s a.



End ReadModifyWrite.

(** ** Steps of different threads on disjoint cells *)

Section LocalSteps.

Context {A : Type}.
Variable step : A -> mem -> mem.

(** [cells y] lists the cells on which step [y] works: it leaves the others
    as they are, and what it leaves in a cell depends on that cell only. *)
Variable cells : A -> list Z.
Hypothesis step_outside :
  forall y s a, a ∉ cells y -> step y s a = s a.
Hypothesis step_local :
  forall y s s' a, s a = s' a -> step y s a = step y s' a.





End LocalSteps.

(** ** Forward pass: the rounds of the accumulation *)

Section AccumulateTurn.

Variables N W no scratch_stride : Z.
Hypothesis HN : 0 <= N.
Hypothesis Hno : 0 < no < 2147483648.
Hypothesis Hstride : no <= scratch_stride.
Hypothesis Hfit : N * scratch_stride <= two32.






End AccumulateTurn.





(** ** The chunks of the thread groups *)

Lemma chunks_prefix (examples_per_block total_num_examples : Z) (g : nat) :
  0 < examples_per_block -> 0 <= total_num_examples < two32 ->
  Z.of_nat g * examples_per_block < two32 ->
  mjoin ((fun b => chunk b examples_per_block total_num_examples)
           <$> seqZ 0 (Z.of_nat g))
  = seqZ 0 (Z.min total_num_examples (Z.of_nat g * examples_per_block)).
Proof.
  intros Hepb Htotal. induction g as [| g IH]; intros Hfit.
  - change (Z.of_nat 0) with 0. rewrite Z.mul_0_l.
    replace (Z.min total_num_examples 0) with 0 by lia. done.
  - rewrite seqZ_S, fmap_app, join_app, IH by nia.
    cbn [fmap list_fmap mjoin list_join]. rewrite app_nil_r, Z.add_0_l.
    unfold chunk, last_example_of, example_num_base_of.
    rewrite (u32_small (Z.of_nat g * _)) by nia.
    rewrite (u32_small total_num_examples) by done.
    rewrite (u32_small (_ + _)) by nia.
    destruct (Z_le_gt_dec total_num_examples (Z.of_nat g * examples_per_block)).
    + rewrite (seqZ_nil (Z.of_nat g * examples_per_block)) by lia.
      rewrite app_nil_r. f_equal. nia.
    + replace (Z.min total_num_examples (Z.of_nat g * examples_per_block))
        with (Z.of_nat g * examples_per_block) by lia.
      rewrite <- (Z.add_0_l (Z.of_nat g * examples_per_block)) at 2.
      rewrite <- seqZ_app by nia. f_equal. nia.
Qed.

(** X5: the chunks the kernel gives to the thread groups of a grid that
    covers the training set ([grid * examples_per_block >= total]) follow one
    another and make up the examples 0 .. total - 1: every example is in the
    chunk of exactly one group, and a group beyond the end has an empty
    chunk. *)
Theorem chunks_partition (grid examples_per_block total_num_examples : Z)
    (Hgrid : 0 <= grid) (Hepb : 0 < examples_per_block)
    (Htotal : 0 <= total_num_examples <= grid * examples_per_block)
    (Hfit : grid * examples_per_block < two32) :
  mjoin ((fun b => chunk b examples_per_block total_num_examples)
           <$> seqZ 0 grid)
  = seqZ 0 total_num_examples.
Proof.
  rewrite <- (Z2Nat.id grid) at 1 by lia.
  rewrite chunks_prefix; rewrite ?Z2Nat.id by lia; try lia.
  f_equal. lia.
Qed.

Lemma chunks_partition_witness :
  (0 <= 3 /\ 0 < 4 /\ 0 <= 10 <= 3 * 4 /\ 3 * 4 < two32)
  /\ mjoin ((fun b => chunk b 4 10) <$> seqZ 0 3) = seqZ 0 10.
Proof.
  split; [unfold two32; lia |].
  exact (chunks_partition 3 4 10 ltac:(lia) ltac:(lia) ltac:(lia)
           ltac:(unfold two32; lia)).
Defined.

(** ** Short chunks *)

Lemma dispatch_loop_8_never_ends (bound : Z) (fuel : nat) :
  forall (example_num : Z) (calls : list dispatch),
    0 <= example_num < two32 ->
    two32 - 7 + example_num mod 8 <= bound ->
    exists i more,
      dispatch_loop fuel 8 bound example_num calls
      = OutOfFuel i (calls ++ more)
      /\ length more = fuel
      /\ forall c, c ∈ more -> batch_size c = 8.
Proof.
  induction fuel as [| fuel IH]; intros example_num calls He Hbound.
  - exists example_num, []. rewrite app_nil_r.
    split; [done |]. split; [done |].
    intros c Hc. by apply elem_of_nil in Hc.
  - assert (Hlt : example_num < bound).
    { pose proof (Z.div_mod example_num 8 ltac:(lia)) as Hdm.
      pose proof (Z.mod_pos_bound example_num 8 ltac:(lia)).
      unfold two32 in *. lia. }
    assert (Hnext : 0 <= u32 (example_num + 8) < two32) by apply u32_range.
    assert (Hnm : u32 (example_num + 8) mod 8 = example_num mod 8).
    { unfold u32, two32.
      change 4294967296 with (8 * 536870912).
      rewrite Z.rem_mul_r by lia.
      rewrite Z.mul_comm, Z.mod_add by lia.
      rewrite Z.mod_mod by lia.
      rewrite <- Z.add_mod_idemp_r by lia.
      change (8 mod 8) with 0. by rewrite Z.add_0_r. }
    destruct (IH (u32 (example_num + 8)) (calls ++ [call 8 example_num])
                Hnext ltac:(by rewrite Hnm))
      as (i & more & Hrun & Hlen & Hall).
    exists i, (call 8 example_num :: more).
    unfold dispatch_loop, for_upto in *. cbn [for_loop].
    replace (example_num <? bound) with true by (symmetry; by apply Z.ltb_lt).
    rewrite Hrun, <- app_assoc. cbn [app].
    split; [done |]. split; [cbn; lia |].
    intros c Hc. apply elem_of_cons in Hc as [-> | Hc]; [done | by apply Hall].
Qed.

(** X6: a chunk that is not empty and ends before example 7 is never
    finished.  The bound [last_example - 7] of the first loop wraps, every
    call the kernel makes is a batch of 8, and however many iterations are
    allowed the first loop is still running. *)
Theorem train_examples_kernel_short_chunk (fuel : nat)
    (block_num examples_per_block total_num_examples : Z)
    (Hchunk : example_num_base_of block_num examples_per_block
              <= last_example_of block_num examples_per_block total_num_examples)
    (Hshort : last_example_of block_num examples_per_block total_num_examples
              < 7) :
  exists i calls,
    train_examples_kernel fuel block_num examples_per_block total_num_examples
    = OutOfFuel i calls
    /\ length calls = fuel
    /\ forall c, c ∈ calls -> batch_size c = 8.
Proof.
  set (base := example_num_base_of block_num examples_per_block) in *.
  set (last := last_example_of block_num examples_per_block total_num_examples)
    in *.
  assert (Hbase : 0 <= base < two32) by apply u32_range.
  assert (Hwrap : u32 (last - 7) = last - 7 + two32).
  { unfold u32. symmetry.
    apply (Z.mod_unique (last - 7) two32 (-1)); unfold two32; lia. }
  pose proof (Z.div_mod base 8 ltac:(lia)) as Hdm.
  pose proof (Z.mod_pos_bound base 8 ltac:(lia)) as Hmod.
  assert (Hdiv : 0 <= base / 8) by (apply Z.div_pos; lia).
  destruct (dispatch_loop_8_never_ends (u32 (last - 7)) fuel base [] Hbase)
    as (i & more & Hrun & Hlen & Hall).
  { rewrite Hwrap. lia. }
  exists i, more. unfold train_examples_kernel. fold base last.
  by rewrite Hrun.
Qed.

Lemma train_examples_kernel_short_chunk_witness :
  (example_num_base_of 1 4 <= last_example_of 1 4 6
   /\ last_example_of 1 4 6 < 7)
  /\ exists i calls,
       train_examples_kernel 5 1 4 6 = OutOfFuel i calls
       /\ length calls = 5%nat
       /\ forall c, c ∈ calls -> batch_size c = 8.
Proof.
  split; [by vm_compute |].
  exact (train_examples_kernel_short_chunk 5 1 4 6 ltac:(by vm_compute)
           ltac:(by vm_compute)).
Defined.

(** ** Arrays altered cell by cell *)

Section AlterFold.

Context {A B : Type}.
Variable F : B -> A -> A.
Variable pos : B -> nat.

Lemma foldl_alter_length (ys : list B) (L : list A) :
  length (foldl (fun L y => alter (F y) (pos y) L) L ys) = length L.
Proof.
  revert L. induction ys as [| y ys IH]; intros L; [done |].
  cbn [foldl]. by rewrite IH, length_alter.
Qed.

Lemma foldl_alter_other (ys : list B) (L : list A) (n : nat) :
  (forall y, y ∈ ys -> pos y <> n) ->
  foldl (fun L y => alter (F y) (pos y) L) L ys !! n = L !! n.
Proof.
  revert L. induction ys as [| y ys IH]; intros L Hys; [done |].
  cbn [foldl]. rewrite IH.
  - apply list_lookup_alter_ne. apply Hys, list_elem_of_here.
  - intros y' Hy'. apply Hys. by apply list_elem_of_further.
Qed.

Lemma foldl_alter_own (ys : list B) (L : list A) (y : B) :
  NoDup ys -> y ∈ ys ->
  (forall y', y' ∈ ys -> pos y' = pos y -> y' = y) ->
  foldl (fun L y => alter (F y) (pos y) L) L ys !! pos y
  = F y <$> L !! pos y.
Proof.
  revert L. induction ys as [| z ys IH]; intros L Hnd Hin Huniq.
  - by apply elem_of_nil in Hin.
  - apply NoDup_cons in Hnd as [Hz Hnd]. cbn [foldl].
    apply elem_of_cons in Hin as [-> | Hin].
    + rewrite foldl_alter_other; [apply list_lookup_alter_eq |].
      intros y' Hy' Heq. apply Hz.
      rewrite <- (Huniq y'); [done | by apply list_elem_of_further | done].
    + rewrite IH; [| done | done |].
      * f_equal. apply list_lookup_alter_ne. intros Heq. apply Hz.
        rewrite (Huniq z); [done | apply list_elem_of_here | done].
      * intros y' Hy'. apply Huniq. by apply list_elem_of_further.
Qed.

End AlterFold.

(** ** Backward pass: what the weight update leaves *)

Lemma rotation_elem ni start_at i :
  0 <= start_at <= ni -> i ∈ rotation ni start_at <-> 0 <= i < ni.
Proof.
  intros Hs. rewrite (rotation_permutation ni start_at Hs), elem_of_seqZ. lia.
Qed.

Lemma rotation_NoDup ni start_at :
  0 <= start_at <= ni -> NoDup (rotation ni start_at).
Proof.
  intros Hs. rewrite (rotation_permutation ni start_at Hs). apply NoDup_seqZ.
Qed.

(** X7: the weight update of a thread with [tid] below the row stride
    changes the column [tid] of the layer's accumulator array and nothing
    else.  Given [ni] iterations the loop ends; the array keeps its length;
    for every input [i < ni] the cell [i * w_stride + tid] lies inside the
    [ni * w_stride] cells the Context allocates and has received exactly one
    atomic add, of the batch's sum for that input; every other cell is as it
    was. *)
Theorem update_weights_column (UpdateFloat : Type)
    (atomic_add_cell : UpdateFloat -> double -> UpdateFloat)
    (N l : Z) (input : mem) (input_stride : Z) (last_layer_outputs : mem)
    (total_neurons : Z) (example_weights : Z -> float) (learning_rate : float)
    (d : Z -> float) (ni w_stride num_threads_in_block tid : Z)
    (fuel : nat) (block_num : Z) (layer_updates : list UpdateFloat)
    (Hni : 0 < ni < 2147483648) (Hntb : 0 < num_threads_in_block)
    (Hblock : 0 <= block_num < two32)
    (Htid : 0 <= tid < w_stride) (Hsize : ni * w_stride <= two32)
    (Hfuel : (Z.to_nat ni < fuel)%nat) :
  let total := fun i =>
    total_weight_update N
      (fun x => prev_output l input input_stride last_layer_outputs
                  total_neurons x i)
      (k_of example_weights learning_rate) d in
  exists j updated,
    update_weights UpdateFloat atomic_add_cell N l input input_stride
      last_layer_outputs total_neurons example_weights learning_rate d ni
      w_stride num_threads_in_block tid fuel block_num layer_updates
    = Done j updated
    /\ length updated = length layer_updates
    /\ (forall i, 0 <= i < ni ->
          0 <= i * w_stride + tid < ni * w_stride
          /\ updated !! Z.to_nat (i * w_stride + tid)
             = (fun cell => atomic_add_cell cell (total i))
                 <$> layer_updates !! Z.to_nat (i * w_stride + tid))
    /\ (forall n : nat,
          (forall i, 0 <= i < ni -> n <> Z.to_nat (i * w_stride + tid)) ->
          updated !! n = layer_updates !! n).
Proof.
  intros total.
  pose proof (start_at_range block_num ni num_threads_in_block Hni) as Hs.
  set (start_at := start_at_of block_num ni num_threads_in_block) in *.
  assert (Hcell : forall i, 0 <= i < ni ->
            u32 (u32 (i * w_stride) + tid) = i * w_stride + tid).
  { intros i Hi. fold (scratch_index w_stride i tid).
    apply scratch_index_small; nia. }
  eexists _, _. split.
  { unfold update_weights. fold start_at. by apply stagger_loop_run. }
  set (F := fun i (cell : UpdateFloat) => atomic_add_cell cell (total i)).
  set (pos := fun i => Z.to_nat (u32 (u32 (i * w_stride) + tid))).
  change (foldl _ layer_updates (rotation ni start_at))
    with (foldl (fun L i => alter (F i) (pos i) L) layer_updates
                (rotation ni start_at)).
  split; [apply foldl_alter_length |]. split.
  - intros i Hi. split; [nia |].
    replace (Z.to_nat (i * w_stride + tid)) with (pos i)
      by (unfold pos; by rewrite Hcell).
    apply foldl_alter_own.
    + apply rotation_NoDup. lia.
    + apply rotation_elem; lia.
    + intros i' Hi' Heq. apply rotation_elem in Hi'; [| lia].
      unfold pos in Heq. rewrite !Hcell in Heq by done.
      apply Z2Nat.inj in Heq; nia.
  - intros n Hn. apply foldl_alter_other.
    intros i Hi. apply rotation_elem in Hi; [| lia].
    unfold pos. rewrite Hcell by done. intros Heq. by apply (Hn i).
Qed.

Lemma update_weights_column_witness :
  (0 < 3 < 2147483648 /\ 0 < 2 /\ 0 <= 2 < two32 /\ 0 <= 1 < 2
   /\ 3 * 2 <= two32 /\ (Z.to_nat 3 < 5)%nat)
  /\ exists j updated,
       update_weights Z (fun cell _ => cell + 1) 1 0 (fun _ => fone) 3
         (fun _ => fone) 5 (fun _ => fone) fone (fun _ => fone) 3 2 2 1 5 2
         [0; 0; 0; 0; 0; 0]
       = Done j updated
       /\ length updated = 6%nat
       /\ updated !! 3%nat = Some 1.
Proof.
  split; [unfold two32; lia |].
  destruct (update_weights_column Z (fun cell _ => cell + 1) 1 0
              (fun _ => fone) 3 (fun _ => fone) 5 (fun _ => fone) fone
              (fun _ => fone) 3 2 2 1 5 2 [0; 0; 0; 0; 0; 0]
              ltac:(lia) ltac:(lia) ltac:(unfold two32; lia) ltac:(lia)
              ltac:(unfold two32; lia) ltac:(lia))
    as (j & updated & Hrun & Hlen & Hown & _).
  exists j, updated. split; [exact Hrun |]. split; [exact Hlen |].
  exact (proj2 (Hown 1 ltac:(lia))).
Defined.

(** ** The accumulators of a fresh Context *)

Lemma lookup_fmap_seqZ {A : Type} (f : Z -> A) (n l : Z) :
  0 <= l < n -> (f <$> seqZ 0 n) !! Z.to_nat l = Some (f l).
Proof.
  intros Hl. rewrite list_lookup_fmap, lookup_seqZ_lt by lia.
  cbn. f_equal. f_equal. lia.
Qed.

Lemma alter_replicate {A : Type} (f : A -> A) (k n : nat) (zero : A) :
  (k < n)%nat ->
  alter f k (replicate n zero) = <[k := f zero]> (replicate n zero).
Proof.
  intros Hk. apply list_eq. intros j.
  destruct (decide (k = j)) as [<- | Hne].
  - rewrite list_lookup_alter_eq, list_lookup_insert_eq
      by (by rewrite length_replicate).
    by rewrite lookup_replicate_2.
  - by rewrite list_lookup_alter_ne, list_lookup_insert_ne.
Qed.

(** X8: the accumulators of a fresh Context and the cells the kernel adds
    to.  Let the layer [l] have [ni * w_stride] weights, a number of [int],
    and [no] outputs.  The Context holds [ni * w_stride] weight cells and
    [no] bias cells for it, all zero.  When the row stride is at least the
    output width, the atomic add [update_weight] makes for a thread
    [tid < no] and an input [i < ni] changes the cell [i * w_stride + tid],
    which is one of the weight cells, and no other; for the last input the
    cell it addresses is one of them only if [tid < w_stride].  The bias
    update changes the bias cell [tid], which always is one of the bias
    cells. *)
Theorem context_accumulators_hold_updates {UpdateFloat : Type}
    (atomic_add_cell : UpdateFloat -> double -> UpdateFloat)
    (zero : UpdateFloat) (p : Plan) (l ni no w_stride i tid : Z)
    (N : Z) (input : mem) (input_stride : Z) (last_layer_outputs : mem)
    (total_neurons : Z) (example_weights : Z -> float) (learning_rate : float)
    (d : Z -> float)
    (Hl : 0 <= l < num_layers p)
    (Hni : architecture p !! Z.to_nat l = Some ni)
    (Hno : architecture p !! Z.to_nat (l + 1) = Some no)
    (Hws : w_strides p !! Z.to_nat l = Some w_stride)
    (Hi : 0 <= i < ni) (Htid : 0 <= tid < no) (Hstride : 0 <= w_stride)
    (Hint : ni * w_stride < 2147483648) (Hwidth : no < 2147483648) :
  let ctx := Context_new zero p in
  let weights := replicate (Z.to_nat (ni * w_stride)) zero in
  let biases := replicate (Z.to_nat no) zero in
  let total :=
    total_weight_update N
      (fun x => prev_output l input input_stride last_layer_outputs
                  total_neurons x i)
      (k_of example_weights learning_rate) d in
  let total_bias :=
    total_bias_update N (k_of example_weights learning_rate) d in
  d_weight_updates_storage ctx !! Z.to_nat l = Some weights
  /\ d_bias_updates_storage ctx !! Z.to_nat l = Some biases
  /\ (no <= w_stride ->
      (Z.to_nat (i * w_stride + tid) < length weights)%nat
      /\ update_weight UpdateFloat atomic_add_cell N l input input_stride
           last_layer_outputs total_neurons example_weights learning_rate d
           w_stride tid i weights
         = <[Z.to_nat (i * w_stride + tid) := atomic_add_cell zero total]>
             weights)
  /\ ((Z.to_nat (u32 (u32 ((ni - 1) * w_stride) + tid)) < length weights)%nat
      <-> tid < w_stride)
  /\ (Z.to_nat tid < length biases)%nat
  /\ update_bias UpdateFloat atomic_add_cell N example_weights learning_rate d
       tid biases
     = <[Z.to_nat tid := atomic_add_cell zero total_bias]> biases.
Proof.
  intros ctx weights biases total total_bias.
  unfold ctx, Context_new. cbn [d_weight_updates_storage
    d_bias_updates_storage].
  rewrite !lookup_fmap_seqZ by done. cbn zeta.
  rewrite Hni, Hno, Hws. cbn [default id].
  rewrite (s32_small (ni * w_stride)) by (unfold in_int; nia).
  split; [done |]. split; [done |].
  unfold weights, biases. rewrite !length_replicate.
  split; [| split; [| split]].
  - intros Hle.
    assert (Hlt : (Z.to_nat (i * w_stride + tid)
                   < Z.to_nat (ni * w_stride))%nat)
      by (apply Z2Nat.inj_lt; nia).
    split; [done |].
    unfold update_weight, atomic_add. fold total.
    rewrite (u32_small (i * w_stride)) by (unfold two32; nia).
    rewrite u32_small by (unfold two32; nia).
    by apply (alter_replicate (fun cell => atomic_add_cell cell total)).
  - rewrite (u32_small ((ni - 1) * w_stride)) by (unfold two32; nia).
    rewrite u32_small by (unfold two32; nia).
    split.
    + intros Hlt. apply Z2Nat.inj_lt in Hlt; nia.
    + intros Hlt. apply Z2Nat.inj_lt; nia.
  - lia.
  - unfold update_bias, atomic_add. fold total_bias.
    apply (alter_replicate (fun cell => atomic_add_cell cell total_bias)).
    lia.
Qed.

Lemma context_accumulators_hold_updates_witness :
  let p := Plan_new 2 [2; 3; 1] [4; 1] in
  (0 <= 0 < num_layers p
   /\ architecture p !! Z.to_nat 0 = Some 2
   /\ architecture p !! Z.to_nat (0 + 1) = Some 3
   /\ w_strides p !! Z.to_nat 0 = Some 4
   /\ 0 <= 1 < 2 /\ 0 <= 2 < 3 /\ 0 <= 4
   /\ 2 * 4 < 2147483648 /\ 3 < 2147483648)
  /\ d_weight_updates_storage (Context_new 0 p) !! Z.to_nat 0
     = Some (replicate (Z.to_nat (2 * 4)) 0)
  /\ update_weight Z (fun cell _ => cell + 1) 1 0 (fun _ => fone) 2
       (fun _ => fone) 6 (fun _ => fone) fone (fun _ => fone) 4 2 1
       (replicate (Z.to_nat (2 * 4)) 0)
     = [0; 0; 0; 0; 0; 0; 1; 0].
Proof.
  intros p. split; [by vm_compute |].
  destruct (context_accumulators_hold_updates (fun cell _ => cell + 1) 0 p
              0 2 3 4 1 2 1 (fun _ => fone) 2 (fun _ => fone) 6
              (fun _ => fone) fone (fun _ => fone)
              ltac:(by vm_compute) eq_refl eq_refl eq_refl ltac:(lia)
              ltac:(lia) ltac:(lia) ltac:(lia) ltac:(lia))
    as (Hw & _ & Hin & _).
  split; [exact Hw |].
  destruct (Hin ltac:(lia)) as [_ Hadd]. rewrite Hadd. reflexivity.
Defined.

(** ** Zero learning rate *)

(** X9: with a learning rate of zero and finite example weights, inputs,
    layer outputs and deltas, the sum a thread hands to every atomic add of
    a layer is exactly +0.0: the weight update for input [i] adds 0.0 to its
    cell and so does the bias update. *)
Theorem zero_learning_rate_adds_zero (UpdateFloat : Type)
    (atomic_add_cell : UpdateFloat -> double -> UpdateFloat)
    (N l : Z) (input : mem) (input_stride : Z) (last_layer_outputs : mem)
    (total_neurons : Z) (example_weights : Z -> float) (learning_rate : float)
    (d : Z -> float) (w_stride tid i : Z)
    (layer_updates layer_bias_updates : list UpdateFloat)
    (Hrate : is_zero learning_rate = true)
    (Hweights : forall x, 0 <= x < N -> is_finite (example_weights x) = true)
    (Hdeltas : forall x, 0 <= x < N -> is_finite (d x) = true)
    (Hprev : forall x, 0 <= x < N ->
               is_finite (prev_output l input input_stride last_layer_outputs
                            total_neurons x i) = true) :
  update_weight UpdateFloat atomic_add_cell N l input input_stride
    last_layer_outputs total_neurons example_weights learning_rate d w_stride
    tid i layer_updates
  = atomic_add UpdateFloat atomic_add_cell layer_updates
      (u32 (u32 (i * w_stride) + tid)) dzero
  /\ update_bias UpdateFloat atomic_add_cell N example_weights learning_rate d
       tid layer_bias_updates
     = atomic_add UpdateFloat atomic_add_cell layer_bias_updates tid dzero.
Proof.
  assert (Hk : forall x, 0 <= x < N ->
            exists s, k_of example_weights learning_rate x = S754_zero s).
  { intros x Hx. apply is_zero_inv, k_of_zero; [by apply Hweights | | by right].
    by apply is_zero_finite. }
  split.
  - unfold update_weight. f_equal.
    apply total_weight_update_all_zero. intros x Hx.
    destruct (Hk x Hx) as [s ->]. unfold weight_update_term.
    destruct (is_zero_inv _ (fmul_zero_r s _ (Hprev x Hx))) as [s' ->].
    apply fmul_zero_l. by apply Hdeltas.
  - unfold update_bias. f_equal.
    apply total_bias_update_all_zero. intros x Hx.
    destruct (Hk x Hx) as [s ->]. unfold bias_update_term.
    apply fmul_zero_l. by apply Hdeltas.
Qed.

Lemma zero_learning_rate_adds_zero_witness :
  (is_zero fzero = true
   /\ (forall x, 0 <= x < 4 -> is_finite ((fun _ : Z => fone) x) = true)
   /\ (forall x, 0 <= x < 4 -> is_finite ((fun _ : Z => fone) x) = true)
   /\ (forall x, 0 <= x < 4 ->
         is_finite (prev_output 0 (fun _ => fone) 3 (fun _ => fone) 5 x 1)
         = true))
  /\ update_bias Z (fun cell _ => cell + 1) 4 (fun _ => fone) fzero
       (fun _ => fone) 1 [0; 0]
     = atomic_add Z (fun cell _ => cell + 1) [0; 0] 1 dzero.
Proof.
  split; [repeat split; done |].
  exact (proj2 (zero_learning_rate_adds_zero Z (fun cell _ => cell + 1) 4 0
                  (fun _ => fone) 3 (fun _ => fone) 5 (fun _ => fone) fzero
                  (fun _ => fone) 2 1 1 [0; 0; 0; 0; 0; 0] [0; 0] eq_refl
                  (fun _ _ => eq_refl) (fun _ _ => eq_refl)
                  (fun _ _ => eq_refl))).
Defined.

(** ** Plan: the layout constants *)

Lemma foldl_max_ge (widths : list Z) (acc w : Z) :
  w ∈ widths -> w <= foldl Z.max acc widths.
Proof.
  revert acc. induction widths as [| v widths IH]; intros acc Hin.
  - by apply elem_of_nil in Hin.
  - cbn [foldl]. apply elem_of_cons in Hin as [-> | Hin].
    + pose proof (foldl_max_le widths (Z.max acc v)). lia.
    + by apply IH.
Qed.

Lemma foldl_max_attained (widths : list Z) (acc : Z) :
  foldl Z.max acc widths = acc \/ foldl Z.max acc widths ∈ widths.
Proof.
  revert acc. induction widths as [| v widths IH]; intros acc; [by left |].
  cbn [foldl]. destruct (IH (Z.max acc v)) as [Heq | Hin].
  - rewrite Heq. destruct (Z.max_spec acc v) as [[_ ->] | [_ ->]].
    + right. apply list_elem_of_here.
    + by left.
  - right. by apply list_elem_of_further.
Qed.

Lemma foldl_add_ge (widths : list Z) (acc w : Z) :
  (forall v, v ∈ widths -> 0 <= v) -> w ∈ widths ->
  acc + w <= foldl Z.add acc widths.
Proof.
  revert acc. induction widths as [| v widths IH]; intros acc Hpos Hin.
  - by apply elem_of_nil in Hin.
  - cbn [foldl]. apply elem_of_cons in Hin as [-> | Hin].
    + assert (Hmono : forall l a, (forall v, v ∈ l -> 0 <= v) ->
                a <= foldl Z.add a l).
      { clear. induction l as [| u l IHl]; intros a Hl; cbn [foldl]; [lia |].
        specialize (IHl (a + u) ltac:(intros; apply Hl; by apply list_elem_of_further)).
        specialize (Hl u ltac:(apply list_elem_of_here)). lia. }
      apply Hmono. intros u Hu. apply Hpos. by apply list_elem_of_further.
    + specialize (IH (acc + v) ltac:(intros; apply Hpos; by apply list_elem_of_further) Hin).
      specialize (Hpos v ltac:(apply list_elem_of_here)). lia.
Qed.

Lemma foldl_add_nonneg (widths : list Z) (acc : Z) :
  (forall v, v ∈ widths -> 0 <= v) -> acc <= foldl Z.add acc widths.
Proof.
  revert acc. induction widths as [| u widths IH]; intros acc Hpos;
    cbn [foldl]; [lia |].
  specialize (IH (acc + u)
                ltac:(intros; apply Hpos; by apply list_elem_of_further)).
  specialize (Hpos u ltac:(apply list_elem_of_here)). lia.
Qed.

(** The [int] sum of widths that are not negative and whose sum is an
    [int] is their sum. *)
Lemma foldl_s32_add (widths : list Z) :
  (forall v, v ∈ widths -> 0 <= v) ->
  foldl Z.add 0 widths < 2147483648 ->
  foldl (fun total_neurons width => s32 (total_neurons + width)) 0 widths
  = foldl Z.add 0 widths.
Proof.
  induction widths as [| w widths IH] using rev_ind; intros Hpos Hsum;
    [done |].
  rewrite !foldl_snoc in *.
  assert (Hpos' : forall v, v ∈ widths -> 0 <= v)
    by (intros v Hv; apply Hpos, elem_of_app; by left).
  pose proof (foldl_add_nonneg widths 0 Hpos') as H0.
  assert (Hw : 0 <= w)
    by (apply Hpos, elem_of_app; right; by apply list_elem_of_singleton).
  rewrite IH by (done || lia).
  apply s32_small. unfold in_int. lia.
Qed.

(** X10: the thread group of a Plan has a thread for every unit of every
    layer.  Every width among [architecture[0 .. num_layers]] is at most
    [max_width], which is the group width; [max_width] is 0 or the width of
    one of the layers; and when no width is negative and the sum of the
    widths is an [int], [total_neurons] is that sum and [max_width] is at
    most [total_neurons]. *)
Theorem plan_group_covers_layers (num_layers : Z)
    (architecture w_strides : list Z) (l : nat) (width : Z)
    (Hl : Z.of_nat l <= num_layers)
    (Hwidth : architecture !! l = Some width) :
  let p := Plan_new num_layers architecture w_strides in
  let widths := take (Z.to_nat (num_layers + 1)) architecture in
  width <= plan_max_width p
  /\ threads p = plan_max_width p
  /\ (plan_max_width p = 0 \/ plan_max_width p ∈ widths)
  /\ ((forall v, v ∈ widths -> 0 <= v) ->
      foldl Z.add 0 widths < 2147483648 ->
      plan_total_neurons p = foldl Z.add 0 widths
      /\ plan_max_width p <= plan_total_neurons p).
Proof.
  intros p widths.
  assert (Hin : width ∈ widths).
  { apply list_elem_of_lookup. exists l. unfold widths.
    rewrite lookup_take_lt by lia. done. }
  split; [by apply foldl_max_ge |]. split; [done |]. split.
  - apply foldl_max_attained.
  - intros Hpos Hsum. cbn [plan_max_width plan_total_neurons p Plan_new].
    fold widths. rewrite foldl_s32_add by done. split; [done |].
    destruct (foldl_max_attained widths 0) as [-> | Hmax].
    + pose proof (foldl_add_ge widths 0 width Hpos Hin).
      specialize (Hpos width Hin). lia.
    + pose proof (foldl_add_ge widths 0 _ Hpos Hmax). lia.
Qed.

Lemma plan_group_covers_layers_witness :
  (Z.of_nat 1 <= 2 /\ [2; 3; 1] !! 1%nat = Some 3)
  /\ 3 <= plan_max_width (Plan_new 2 [2; 3; 1] [3; 1])
  /\ plan_total_neurons (Plan_new 2 [2; 3; 1] [3; 1]) = 6
  /\ plan_max_width (Plan_new 2 [2; 3; 1] [3; 1])
     <= plan_total_neurons (Plan_new 2 [2; 3; 1] [3; 1]).
Proof.
  split; [split; [by vm_compute | done] |].
  destruct (plan_group_covers_layers 2 [2; 3; 1] [3; 1] 1 3
              ltac:(by vm_compute) eq_refl)
    as (Hle & _ & _ & Htotal).
  split; [exact Hle |]. apply Htotal.
  - intros v Hv. repeat (apply elem_of_cons in Hv as [-> | Hv]; [lia |]).
    by apply elem_of_nil in Hv.
  - by vm_compute.
Defined.

(** ** Forward pass: the outputs of a layer *)

Lemma fprop_store_shared_agree_witness :
  (0 <= 1 < 4 /\ 0 <= 0 < 1 /\ 1 < 2147483648 /\ 0 < 2 /\ 4 * 2 <= two32
   /\ 0 < 3 /\ 4 * 3 <= two32)
  /\ fst (fprop_store_shared (fun v => v) 4 ACT_IDENTITY 1 2 3 1 0 0
            (fun _ => fone, fun _ => fzero)) (scratch_index 2 1 0)
     = fone
  /\ snd (fprop_store_shared (fun v => v) 4 ACT_IDENTITY 1 2 3 1 0 0
            (fun _ => fone, fun _ => fzero)) (layer_output_index 1 3 0 1 0)
     = fone.
Proof.
  split; [unfold two32; lia |].
  exact (fprop_store_shared_agree (fun v => v) 4 ACT_IDENTITY 1 2 3 1 0 0
           (fun _ => fone) (fun _ => fzero) 1 ltac:(lia) ltac:(lia) ltac:(lia)
           ltac:(lia) ltac:(unfold two32; lia) ltac:(lia)
           ltac:(unfold two32; lia)).
Defined.

(** ** Walking the layers *)

Lemma weights_offset_0 architecture w_strides :
  weights_offset architecture w_strides 0 = 0.
Proof. done. Qed.

Lemma foldr_add_snoc (l : list Z) (v : Z) :
  foldr Z.add 0 (l ++ [v]) = foldr Z.add 0 l + v.
Proof. induction l as [| u l IH]; cbn; lia. Qed.

Lemma weights_offset_succ architecture w_strides (l : Z) :
  0 <= l ->
  weights_offset architecture w_strides (l + 1)
  = weights_offset architecture w_strides l
    + array_at architecture l * array_at w_strides l.
Proof.
  intros Hl. unfold weights_offset.
  rewrite <- (Z2Nat.id l) at 1 by lia.
  replace (Z.of_nat (Z.to_nat l) + 1) with (Z.of_nat (S (Z.to_nat l))) by lia.
  rewrite seqZ_S, fmap_app, list_fmap_singleton, foldr_add_snoc, Z2Nat.id,
    Z.add_0_l by lia.
  done.
Qed.

Lemma outputs_offset_succ architecture (l : Z) :
  0 <= l ->
  outputs_offset architecture (l + 1)
  = outputs_offset architecture l + array_at architecture (l + 1).
Proof.
  intros Hl. unfold outputs_offset.
  rewrite <- (Z2Nat.id l) at 1 by lia.
  replace (Z.of_nat (Z.to_nat l) + 1) with (Z.of_nat (S (Z.to_nat l))) by lia.
  rewrite seqZ_S, fmap_app, list_fmap_singleton, foldr_add_snoc, Z2Nat.id,
    Z.add_0_l by lia.
  done.
Qed.

(** A loop that counts down to zero. *)
Lemma for_down_run {S : Type} (body : Z -> S -> S) (n : nat) :
  forall (fuel : nat) (s : S),
    (n < fuel)%nat ->
    for_loop fuel (fun l => 0 <=? l) (fun l => l - 1) body (Z.of_nat n - 1) s
    = Done (-1) (foldl (fun s l => body l s) s
                       (reverse (seqZ 0 (Z.of_nat n)))).
Proof.
  induction n as [| n IH]; intros fuel s Hf.
  - destruct fuel as [| fuel]; [lia |]. done.
  - destruct fuel as [| fuel]; [lia |]. cbn [for_loop].
    replace (0 <=? Z.of_nat (Datatypes.S n) - 1) with true
      by (symmetry; apply Z.leb_le; lia).
    replace (Z.of_nat (Datatypes.S n) - 1 - 1) with (Z.of_nat n - 1) by lia.
    rewrite IH by lia.
    rewrite seqZ_S, reverse_snoc, Z.add_0_l. cbn [foldl].
    do 3 f_equal. lia.
Qed.


Lemma for_down_run_Z {S : Type} (body : Z -> S -> S) (fuel : nat) (n : Z)
    (s : S) :
  0 <= n -> (Z.to_nat n < fuel)%nat ->
  for_loop fuel (fun l => 0 <=? l) (fun l => l - 1) body (n - 1) s
  = Done (-1) (foldl (fun s l => body l s) s (reverse (seqZ 0 n))).
Proof.
  intros Hn Hf. rewrite <- (Z2Nat.id n) by lia. by apply for_down_run.
Qed.

Lemma wa_advance_at (a : WeightsAccess) (v : Z) :
  in_int (offset a + v) ->
  wa_advance a (s32 v) = {| base := base a; offset := offset a + v |}.
Proof.
  intros Hv. unfold wa_advance. f_equal.
  rewrite s32_s32, s32_add_s32. by apply s32_small.
Qed.

Lemma wa_retreat_at (a : WeightsAccess) (v : Z) :
  in_int (offset a - v) ->
  wa_retreat a (s32 v) = {| base := base a; offset := offset a - v |}.
Proof.
  intros Hv. unfold wa_retreat. f_equal.
  rewrite s32_s32, s32_sub_s32. by apply s32_small.
Qed.

Lemma wa_advance_int (a : WeightsAccess) (v : Z) :
  wa_advance a v = wa_advance a (s32 v).
Proof. unfold wa_advance. by rewrite s32_s32. Qed.

Lemma outputs_offset_0 architecture : outputs_offset architecture 0 = 0.
Proof. done. Qed.

Section Walk.

Variables architecture w_strides : list Z.
Variables w biases : WeightsAccess.

Lemma fprop_walk_fold (n : nat) (st : cursor * list fprop_view) :
  layer_weights (fst st) = w ->
  layer_biases (fst st) = biases ->
  this_layer_outputs (fst st) = 0 ->
  snd st = [] ->
  offsets_in_int (Z.of_nat n) architecture w_strides w biases ->
  foldl (fun st l => fprop_walk_step architecture w_strides l st) st
        (seqZ 0 (Z.of_nat n))
  = (cursor_at architecture w_strides w biases (Z.of_nat n)
       (if n is O then cur_ni (fst st)
        else array_at architecture (Z.of_nat n - 1))
       (if n is O then cur_no (fst st)
        else array_at architecture (Z.of_nat n))
       (if n is O then cur_w_stride (fst st)
        else array_at w_strides (Z.of_nat n - 1)),
     fview architecture w_strides w biases <$> seqZ 0 (Z.of_nat n)).
Proof.
  intros Hw Hb Ho Hv. induction n as [| n IH]; intros Hrange.
  - destruct st as [c views]. cbn [fst snd] in *. subst views.
    change (seqZ 0 (Z.of_nat 0)) with (@nil Z). cbn [foldl fmap list_fmap].
    f_equal. destruct c as [lw lb tlo ni no ws]. cbn in Hw, Hb, Ho. subst.
    unfold cursor_at. change (Z.of_nat 0) with 0.
    rewrite weights_offset_0, outputs_offset_0, !Z.add_0_r.
    by destruct w, biases.
  - rewrite seqZ_S, foldl_snoc, IH, Z.add_0_l
      by (intros m Hm; apply Hrange; lia).
    unfold fprop_walk_step. cbn [fst snd].
    destruct (Hrange (Z.of_nat n + 1) ltac:(lia)) as [Hwn Hbn].
    rewrite weights_offset_succ in Hwn by lia.
    rewrite outputs_offset_succ in Hbn by lia.
    f_equal.
    + unfold cursor_at. cbn [layer_weights layer_biases this_layer_outputs].
      rewrite wa_advance_at by (cbn [offset]; by rewrite <- Z.add_assoc).
      rewrite (wa_advance_int _ (array_at architecture (Z.of_nat n + 1))).
      rewrite wa_advance_at by (cbn [offset]; by rewrite <- Z.add_assoc).
      cbn [base offset].
      replace (Z.of_nat (S n)) with (Z.of_nat n + 1) by lia.
      rewrite weights_offset_succ, outputs_offset_succ by lia.
      replace (Z.of_nat n + 1 - 1) with (Z.of_nat n) by lia.
      by rewrite !Z.add_assoc.
    + rewrite fmap_app. done.
Qed.

Lemma bprop_walk_fold (n : nat) :
  forall (c : cursor) (views : list bprop_view),
    (forall m, 0 <= m <= Z.of_nat n ->
       in_int (offset w + weights_offset architecture w_strides m)) ->
    ((1 <= n)%nat ->
     offset (layer_weights c)
     = offset w + weights_offset architecture w_strides (Z.of_nat n - 1)
     /\ this_layer_outputs c = outputs_offset architecture (Z.of_nat n - 1)) ->
    snd (foldl (fun st l => bprop_walk_step architecture w_strides l st)
               (c, views) (reverse (seqZ 0 (Z.of_nat n))))
    = views ++ (bview architecture w_strides w <$> reverse (seqZ 0 (Z.of_nat n))).
Proof.
  induction n as [| n IH]; intros c views Hrange Hc.
  - cbn. by rewrite app_nil_r.
  - rewrite seqZ_S, reverse_snoc, Z.add_0_l. cbn [foldl fmap list_fmap].
    destruct (Hc ltac:(lia)) as [Hw Ho].
    replace (Z.of_nat (S n) - 1) with (Z.of_nat n) in Hw, Ho by lia.
    unfold bprop_walk_step at 2. cbn [fst snd].
    rewrite IH.
    + rewrite <- app_assoc. cbn [app]. do 2 f_equal.
      unfold bview. by rewrite Hw, Ho.
    + intros m Hm. apply Hrange. lia.
    + intros Hn. cbn [layer_weights this_layer_outputs].
      replace (Z.of_nat n - 1 =? -1) with false
        by (symmetry; apply Z.eqb_neq; lia).
      pose proof (weights_offset_succ architecture w_strides (Z.of_nat n - 1)
                    ltac:(lia)) as Hws.
      pose proof (outputs_offset_succ architecture (Z.of_nat n - 1)
                    ltac:(lia)) as Hos.
      replace (Z.of_nat n - 1 + 1) with (Z.of_nat n) in * by lia.
      pose proof (Hrange (Z.of_nat n - 1) ltac:(lia)) as Hin.
      rewrite wa_retreat_at by (rewrite Hw; unfold in_int in *; lia).
      cbn [offset]. split; lia.
Qed.

End Walk.

(** X11: the backward pass finds every layer where the forward pass left
    it.  Let the network have at least one layer and let the offsets the
    walk gives the two accessors be values of [int].  The forward loop sees
    layer [l] with the weights at [weights_offset l], the biases and the
    outputs at [outputs_offset l], for l = 0, 1, ...; after the two
    corrections the backward loop sees the layers [num_layers - 1, ..., 0]
    at the same places, whatever [no] and [w_stride] held at the start; and
    for [l >= 1] its [last_layer_outputs] is where the forward pass logged
    the outputs of layer [l - 1]. *)
Theorem layers_walked_back (fuel : nat) (num_layers : Z)
    (architecture w_strides : list Z) (w biases : WeightsAccess)
    (no0 w_stride0 : Z)
    (Hlayers : 1 <= num_layers < 2147483648)
    (Hoffsets : offsets_in_int num_layers architecture w_strides w biases)
    (Hfuel : (Z.to_nat num_layers < fuel)%nat) :
  train_walk fuel num_layers architecture w_strides w biases no0 w_stride0
  = Done (-1)
      (fview architecture w_strides w biases <$> seqZ 0 num_layers,
       bview architecture w_strides w <$> reverse (seqZ 0 num_layers))
  /\ forall l, 1 <= l ->
       bv_last_outputs (bview architecture w_strides w l)
       = fv_outputs (fview architecture w_strides w biases (l - 1)).
Proof.
  split.
  - unfold train_walk, fprop_walk.
    rewrite (u32_small num_layers) by (unfold two32; lia).
    assert (Hit : iterations 0 num_layers 1 = Z.to_nat num_layers).
    { replace num_layers with (num_layers + 0) at 1 by lia.
      apply iterations_unit. lia. }
    rewrite for_upto_iterations; rewrite ?Hit; try (unfold two32; lia).
    rewrite stride_range_seqZ,
      (fprop_walk_fold architecture w_strides w biases)
      by (done || by rewrite Z2Nat.id by lia).
    rewrite Z2Nat.id by lia.
    destruct (Z.to_nat num_layers) as [| n] eqn:Hn; [lia |].
    cbv beta iota.
    unfold bprop_walk. rewrite for_down_run_Z by lia.
    set (start := bprop_start _).
    pose proof (bprop_walk_fold architecture w_strides w (Z.to_nat num_layers)
                  start []) as Hfold.
    rewrite Z2Nat.id in Hfold by lia.
    destruct (foldl _ (start, []) _) as [c' views'] eqn:Hrun.
    cbn [snd app] in Hfold. rewrite Hfold; [done | |].
    + intros m Hm. by apply Hoffsets.
    + intros _. unfold start, bprop_start, cursor_at.
      cbn [layer_weights this_layer_outputs cur_ni cur_no cur_w_stride].
      pose proof (weights_offset_succ architecture w_strides (num_layers - 1)
                    ltac:(lia)) as Hws.
      pose proof (outputs_offset_succ architecture (num_layers - 1)
                    ltac:(lia)) as Hos.
      replace (num_layers - 1 + 1) with num_layers in Hws, Hos by lia.
      replace (Z.of_nat (Datatypes.S n)) with num_layers by lia.
      pose proof (proj1 (Hoffsets (num_layers - 1) ltac:(lia))) as Hin.
      rewrite wa_retreat_at by (cbn [offset]; unfold in_int in *; lia).
      cbn [offset]. split; lia.
  - intros l Hl. cbn.
    replace l with (l - 1 + 1) at 1 2 by lia.
    rewrite outputs_offset_succ by lia. lia.
Qed.

Lemma layers_walked_back_witness :
  (1 <= 2 < 2147483648 /\ (Z.to_nat 2 < 3)%nat)
  /\ train_walk 3 2 [2; 3; 1] [4; 1]
       {| base := fun _ => fzero; offset := 0 |}
       {| base := fun _ => fzero; offset := 0 |} 7 7
     = Done (-1)
         ([{| fv_layer := 0; fv_ni := 2; fv_no := 3; fv_w_stride := 4;
              fv_weights := 0; fv_biases := 0; fv_outputs := 0 |};
           {| fv_layer := 1; fv_ni := 3; fv_no := 1; fv_w_stride := 1;
              fv_weights := 8; fv_biases := 3; fv_outputs := 3 |}],
          [{| bv_layer := 1; bv_ni := 3; bv_no := 1; bv_w_stride := 1;
              bv_weights := 8; bv_outputs := 3; bv_last_outputs := 0 |};
           {| bv_layer := 0; bv_ni := 2; bv_no := 3; bv_w_stride := 4;
              bv_weights := 0; bv_outputs := 0; bv_last_outputs := -2 |}]).
Proof.
  split; [lia |].
  assert (Hoffsets : offsets_in_int 2 [2; 3; 1] [4; 1]
                       {| base := fun _ => fzero; offset := 0 |}
                       {| base := fun _ => fzero; offset := 0 |}).
  { intros n Hn. assert (Hcases : n = 0 \/ n = 1 \/ n = 2) by lia.
    destruct Hcases as [-> | [-> | ->]]; by vm_compute. }
  exact (proj1 (layers_walked_back 3 2 [2; 3; 1] [4; 1]
                  {| base := fun _ => fzero; offset := 0 |}
                  {| base := fun _ => fzero; offset := 0 |} 7 7
                  ltac:(lia) Hoffsets ltac:(lia))).
Defined.

(** ** Plan: the copy of the weights to the device *)

Lemma weights_offset_mono architecture w_strides (n : nat) :
  forall l,
    sizes_fit (Z.of_nat n) architecture w_strides ->
    0 <= l <= Z.of_nat n ->
    0 <= weights_offset architecture w_strides l
         <= weights_offset architecture w_strides (Z.of_nat n)
    /\ 0 <= outputs_offset architecture l
            <= outputs_offset architecture (Z.of_nat n).
Proof.
  induction n as [| n IH]; intros l Hs Hl.
  - replace l with 0 by lia. change (Z.of_nat 0) with 0.
    rewrite weights_offset_0, outputs_offset_0. lia.
  - replace (Z.of_nat (S n)) with (Z.of_nat n + 1) in * by lia.
    rewrite weights_offset_succ, outputs_offset_succ by lia.
    destruct (Hs (Z.of_nat n) ltac:(lia)) as [Hw Ho].
    assert (Hs' : sizes_fit (Z.of_nat n) architecture w_strides).
    { intros j Hj. apply Hs. lia. }
    destruct (Z.eq_dec l (Z.of_nat n + 1)) as [Heq | Hne].
    + rewrite Heq, weights_offset_succ, outputs_offset_succ by lia.
      destruct (IH (Z.of_nat n) Hs' ltac:(lia)). lia.
    + destruct (IH l Hs' ltac:(lia)). lia.
Qed.

Section PlanCopyFacts.

Variable size_t_modulus : Z.
Variable cudaGetErrorString : Z -> String.string.
Variable cudaSuccess : Z.
Variables architecture w_strides : list Z.
Variables weights biases : Z -> mem.
Variable errs : Z -> Z * Z.
Variables d_w d_b : mem.

Lemma total_sizes_fold (n : nat) :
  sizes_fit (Z.of_nat n) architecture w_strides ->
  weights_offset architecture w_strides (Z.of_nat n) < size_t_modulus ->
  outputs_offset architecture (Z.of_nat n) < size_t_modulus ->
  foldl (fun totals l =>
           let ni := array_at architecture l in
           let no := array_at architecture (l + 1) in
           let w_stride := array_at w_strides l in
           (to_size_t size_t_modulus (fst totals + s32 (ni * w_stride)),
            to_size_t size_t_modulus (snd totals + no)))
        (0, 0) (seqZ 0 (Z.of_nat n))
  = (weights_offset architecture w_strides (Z.of_nat n),
     outputs_offset architecture (Z.of_nat n)).
Proof.
  induction n as [| n IH]; intros Hs Hw Ho; [done |].
  assert (Hs' : sizes_fit (Z.of_nat n) architecture w_strides).
  { intros j Hj. apply Hs. lia. }
  destruct (Hs (Z.of_nat n) ltac:(lia)) as [Hwn Hon].
  destruct (weights_offset_mono architecture w_strides n (Z.of_nat n) Hs'
              ltac:(lia)) as [Hw0 Ho0].
  replace (Z.of_nat (S n)) with (Z.of_nat n + 1) in Hw, Ho by lia.
  rewrite weights_offset_succ in Hw by lia.
  rewrite outputs_offset_succ in Ho by lia.
  rewrite seqZ_S, foldl_snoc, IH, Z.add_0_l by (done || lia).
  cbn [fst snd]. unfold to_size_t.
  replace (Z.of_nat (S n)) with (Z.of_nat n + 1) by lia.
  rewrite weights_offset_succ, outputs_offset_succ by lia.
  rewrite s32_small by (unfold in_int; lia).
  rewrite !Z.mod_small by lia. done.
Qed.

(** The state of the copy loop when [n] layers have been copied. *)
Lemma copy_layers_fold (n : nat) :
  sizes_fit (Z.of_nat n) architecture w_strides ->
  sizeof_float * weights_offset architecture w_strides (Z.of_nat n)
    < size_t_modulus ->
  sizeof_float * outputs_offset architecture (Z.of_nat n) < size_t_modulus ->
  (forall l, 0 <= l < Z.of_nat n ->
     fst (errs l) = cudaSuccess /\ snd (errs l) = cudaSuccess) ->
  exists u,
    foldl (fun r l =>
             match r with
             | inl e => inl e
             | inr u => copy_layer size_t_modulus cudaGetErrorString cudaSuccess
                          architecture w_strides weights biases errs l u
             end)
          (inr {| d_weights := d_w; d_biases := d_b;
                  weights_start_offset := 0; bias_start_offset := 0 |})
          (seqZ 0 (Z.of_nat n))
    = inr u
    /\ weights_start_offset u
       = weights_offset architecture w_strides (Z.of_nat n)
    /\ bias_start_offset u = outputs_offset architecture (Z.of_nat n)
    /\ (forall l a, 0 <= l < Z.of_nat n ->
          0 <= a < array_at architecture l * array_at w_strides l ->
          d_weights u (weights_offset architecture w_strides l + a)
          = weights l a)
    /\ (forall l o, 0 <= l < Z.of_nat n ->
          0 <= o < array_at architecture (l + 1) ->
          d_biases u (outputs_offset architecture l + o) = biases l o)
    /\ (forall a,
          a < 0 \/ weights_offset architecture w_strides (Z.of_nat n) <= a ->
          d_weights u a = d_w a)
    /\ (forall a,
          a < 0 \/ outputs_offset architecture (Z.of_nat n) <= a ->
          d_biases u a = d_b a).
Proof.
  induction n as [| n IH]; intros Hs Hw Ho Herr.
  - eexists. split; [done |]. cbn.
    repeat split; try done; intros; lia.
  - assert (Hs' : sizes_fit (Z.of_nat n) architecture w_strides).
    { intros j Hj. apply Hs. lia. }
    destruct (Hs (Z.of_nat n) ltac:(lia)) as [Hwn Hon].
    destruct (weights_offset_mono architecture w_strides n (Z.of_nat n) Hs'
                ltac:(lia)) as [Hw0 Ho0].
    replace (Z.of_nat (S n)) with (Z.of_nat n + 1) in Hw, Ho by lia.
    rewrite weights_offset_succ in Hw by lia.
    rewrite outputs_offset_succ in Ho by lia.
    unfold sizeof_float in *.
    destruct IH as (u & Hrun & Hwo & Hbo & Hwc & Hbc & Hwr & Hbr);
      [done | lia | lia | intros l Hl; apply Herr; lia |].
    rewrite seqZ_S, foldl_snoc, Hrun, Z.add_0_l.
    destruct (Herr (Z.of_nat n) ltac:(lia)) as [He1 He2].
    unfold copy_layer. rewrite He1, He2, Z.eqb_refl. cbn [negb].
    eexists. split; [reflexivity |]. cbn [d_weights d_biases
      weights_start_offset bias_start_offset].
    unfold to_size_t, sizeof_float. rewrite Hwo, Hbo.
    replace (Z.of_nat (S n)) with (Z.of_nat n + 1) by lia.
    rewrite weights_offset_succ, outputs_offset_succ by lia.
    rewrite !(s32_small (array_at architecture (Z.of_nat n)
                         * array_at w_strides (Z.of_nat n)))
      by (unfold in_int; lia).
    rewrite !(Z.mod_small (array_at architecture (Z.of_nat n)
                           * array_at w_strides (Z.of_nat n))) by lia.
    rewrite !Z.mod_small by lia.
    unfold cudaMemcpy, sizeof_float. rewrite !Z.div_mul by lia.
    split; [done |]. split; [done |].
    split; [| split; [| split]].
    + intros l a Hl Ha.
      destruct (Z.eq_dec l (Z.of_nat n)) as [Heq | Hne].
      * rewrite Heq in *.
        replace ((_ <=? _) && (_ <? _)) with true
          by (symmetry; apply andb_true_iff; split;
              [apply Z.leb_le | apply Z.ltb_lt]; lia).
        f_equal. lia.
      * destruct (weights_offset_mono architecture w_strides n (l + 1) Hs'
                    ltac:(lia)) as [Hl1 _].
        rewrite weights_offset_succ in Hl1 by lia.
        replace ((_ <=? _) && (_ <? _)) with false
          by (symmetry; apply andb_false_iff; left; apply Z.leb_gt; lia).
        apply Hwc; lia.
    + intros l o Hl Hoo.
      destruct (Z.eq_dec l (Z.of_nat n)) as [Heq | Hne].
      * rewrite Heq in *.
        replace ((_ <=? _) && (_ <? _)) with true
          by (symmetry; apply andb_true_iff; split;
              [apply Z.leb_le | apply Z.ltb_lt]; lia).
        f_equal. lia.
      * destruct (weights_offset_mono architecture w_strides n (l + 1) Hs'
                    ltac:(lia)) as [_ Hl1].
        rewrite outputs_offset_succ in Hl1 by lia.
        replace ((_ <=? _) && (_ <? _)) with false
          by (symmetry; apply andb_false_iff; left; apply Z.leb_gt; lia).
        apply Hbc; lia.
    + intros a Ha.
      replace ((_ <=? _) && (_ <? _)) with false
        by (symmetry; apply andb_false_iff;
            destruct Ha; [left; apply Z.leb_gt | right; apply Z.ltb_ge]; lia).
      apply Hwr. lia.
    + intros a Ha.
      replace ((_ <=? _) && (_ <? _)) with false
        by (symmetry; apply andb_false_iff;
            destruct Ha; [left; apply Z.leb_gt | right; apply Z.ltb_ge]; lia).
      apply Hbr. lia.
Qed.

(** While the copies succeed the loop goes on. *)
Lemma copy_layers_succeed (n : nat) :
  (forall l, 0 <= l < Z.of_nat n ->
     fst (errs l) = cudaSuccess /\ snd (errs l) = cudaSuccess) ->
  exists u,
    foldl (fun r l =>
             match r with
             | inl e => inl e
             | inr u => copy_layer size_t_modulus cudaGetErrorString cudaSuccess
                          architecture w_strides weights biases errs l u
             end)
          (inr {| d_weights := d_w; d_biases := d_b;
                  weights_start_offset := 0; bias_start_offset := 0 |})
          (seqZ 0 (Z.of_nat n))
    = inr u.
Proof.
  induction n as [| n IH]; intros Herr.
  - by eexists.
  - destruct IH as [u Hrun]; [intros l Hl; apply Herr; lia |].
    rewrite seqZ_S, foldl_snoc, Hrun, Z.add_0_l.
    destruct (Herr (Z.of_nat n) ltac:(lia)) as [He1 He2].
    unfold copy_layer. rewrite He1, He2, Z.eqb_refl. cbn [negb].
    by eexists.
Qed.

(** An exception, once thrown, is what the loop ends with. *)
Lemma copy_layers_thrown (e : Exception) (ls : list Z) :
  foldl (fun r l =>
           match r with
           | inl e => inl e
           | inr u => copy_layer size_t_modulus cudaGetErrorString cudaSuccess
                        architecture w_strides weights biases errs l u
           end)
        (inl e) ls
  = inl e.
Proof. induction ls as [| l ls IH]; [done | exact IH]. Qed.

End PlanCopyFacts.

(** The forward loop of the kernel, run to its end. *)
Lemma fprop_walk_run (fuel : nat) (num_layers : Z)
    (architecture w_strides : list Z) (w biases : WeightsAccess)
    (no0 w_stride0 : Z) :
  0 <= num_layers < 2147483648 ->
  offsets_in_int num_layers architecture w_strides w biases ->
  (Z.to_nat num_layers < fuel)%nat ->
  exists c,
    fprop_walk fuel num_layers architecture w_strides w biases no0 w_stride0
    = Done num_layers
        (c, fview architecture w_strides w biases <$> seqZ 0 num_layers).
Proof.
  intros Hlayers Hoffsets Hfuel. unfold fprop_walk.
  rewrite (u32_small num_layers) by (unfold two32; lia).
  assert (Hit : iterations 0 num_layers 1 = Z.to_nat num_layers).
  { replace num_layers with (num_layers + 0) at 1 by lia.
    apply iterations_unit. lia. }
  rewrite for_upto_iterations; rewrite ?Hit; try (unfold two32; lia).
  rewrite stride_range_seqZ,
    (fprop_walk_fold architecture w_strides w biases)
    by (done || by rewrite Z2Nat.id by lia).
  rewrite Z2Nat.id by lia. eexists. f_equal. lia.
Qed.

(** The offsets of a walk that starts at the head of the arrays. *)
Lemma offsets_in_int_access (num_layers : Z) (architecture w_strides : list Z)
    (m m' : mem) :
  0 <= num_layers ->
  sizes_fit num_layers architecture w_strides ->
  weights_offset architecture w_strides num_layers < 2147483648 ->
  outputs_offset architecture num_layers < 2147483648 ->
  offsets_in_int num_layers architecture w_strides (access m) (access m').
Proof.
  intros Hl Hsizes Hw Hb n Hn. cbn [access offset].
  rewrite <- (Z2Nat.id num_layers) in Hsizes, Hw, Hb, Hn by lia.
  destruct (weights_offset_mono architecture w_strides (Z.to_nat num_layers)
              n Hsizes Hn) as [Hwn Hbn].
  unfold in_int. lia.
Qed.

(** X12: the constructor's copy loop puts the weights where the kernel
    reads them.  Let no size be negative, let the number of the weights of
    every layer, and of all the weights and of all the biases, be [int]s,
    let the arrays' byte sizes fit [size_t] and let every copy succeed.
    Then the loop ends without an exception; the forward loop of the kernel,
    started at the head of the two device arrays, runs through the layers;
    and what it reads as [layer_weights[a]] in its iteration [l] is the
    element [a] of [weights[l]], and [layer_biases[o]] the element [o] of
    [biases[l]]. *)
Theorem plan_copy_read_by_kernel (size_t_modulus : Z)
    (cudaGetErrorString : Z -> String.string) (cudaSuccess : Z)
    (num_layers : Z) (architecture w_strides : list Z)
    (weights biases : Z -> mem) (errs : Z -> Z * Z) (d_w d_b : mem)
    (fuel : nat) (no0 w_stride0 : Z)
    (Hlayers : 0 <= num_layers < 2147483648)
    (Hsizes : sizes_fit num_layers architecture w_strides)
    (Hwint : weights_offset architecture w_strides num_layers < 2147483648)
    (Hbint : outputs_offset architecture num_layers < 2147483648)
    (Hw : sizeof_float * weights_offset architecture w_strides num_layers
          < size_t_modulus)
    (Hb : sizeof_float * outputs_offset architecture num_layers
          < size_t_modulus)
    (Herrs : forall l, 0 <= l < num_layers ->
               fst (errs l) = cudaSuccess /\ snd (errs l) = cudaSuccess)
    (Hfuel : (Z.to_nat num_layers < fuel)%nat) :
  exists u c views,
    copy_layers size_t_modulus cudaGetErrorString cudaSuccess num_layers
      architecture w_strides weights biases errs d_w d_b
    = inr u
    /\ fprop_walk fuel num_layers architecture w_strides
         (access (d_weights u)) (access (d_biases u)) no0 w_stride0
       = Done num_layers (c, views)
    /\ forall l, 0 <= l < num_layers ->
         exists v,
           views !! Z.to_nat l = Some v
           /\ fv_layer v = l
           /\ (forall a, 0 <= a < fv_ni v * fv_w_stride v ->
                 wa_get {| base := d_weights u; offset := fv_weights v |} a
                 = weights l a)
           /\ (forall o, 0 <= o < fv_no v ->
                 wa_get {| base := d_biases u; offset := fv_biases v |} o
                 = biases l o).
Proof.
  pose proof (fun m m' =>
                offsets_in_int_access num_layers architecture w_strides m m'
                  ltac:(lia) Hsizes Hwint Hbint) as Hoffsets.
  unfold copy_layers. rewrite (u32_small num_layers) by (unfold two32; lia).
  assert (Hsn : sizes_fit (Z.of_nat (Z.to_nat num_layers)) architecture
                  w_strides) by (by rewrite Z2Nat.id by lia).
  destruct (copy_layers_fold size_t_modulus cudaGetErrorString cudaSuccess
              architecture w_strides weights biases errs d_w d_b
              (Z.to_nat num_layers) Hsn)
    as (u & Hrun & _ & _ & Hwc & Hbc & _);
    rewrite ?Z2Nat.id by lia; try done.
  rewrite Z2Nat.id in Hrun, Hwc, Hbc by lia.
  destruct (fprop_walk_run fuel num_layers architecture w_strides
              (access (d_weights u)) (access (d_biases u)) no0 w_stride0
              Hlayers (Hoffsets _ _) Hfuel) as [c Hwalk].
  exists u, c. eexists. split; [exact Hrun |]. split; [exact Hwalk |].
  intros l Hl. eexists. split; [by apply lookup_fmap_seqZ |].
  split; [done |].
  destruct (weights_offset_mono architecture w_strides (Z.to_nat num_layers)
              (l + 1) Hsn ltac:(lia)) as [Hw1 Hb1].
  destruct (weights_offset_mono architecture w_strides (Z.to_nat num_layers)
              l Hsn ltac:(lia)) as [Hw0 Hb0].
  rewrite Z2Nat.id in Hw0, Hb0, Hw1, Hb1 by lia.
  rewrite weights_offset_succ in Hw1 by lia.
  rewrite outputs_offset_succ in Hb1 by lia.
  cbn [fview fv_ni fv_no fv_w_stride fv_weights fv_biases access offset].
  unfold wa_get. cbn [base offset]. split.
  - intros a Ha. rewrite s32_add_s32, s32_small by (unfold in_int; lia).
    rewrite Z.add_0_l. by apply Hwc.
  - intros o Ho. rewrite s32_add_s32, s32_small by (unfold in_int; lia).
    rewrite Z.add_0_l. by apply Hbc.
Qed.

Lemma plan_copy_read_by_kernel_witness :
  exists u c views,
    copy_layers 18446744073709551616 (fun _ => "error"%string) 0 2
      [2; 3; 1] [4; 1] (fun l _ => if l =? 0 then fzero else fone)
      (fun _ _ => fone) (fun _ => (0, 0)) (fun _ => fzero) (fun _ => fzero)
    = inr u
    /\ fprop_walk 3 2 [2; 3; 1] [4; 1] (access (d_weights u))
         (access (d_biases u)) 7 7
       = Done 2 (c, views)
    /\ forall l, 0 <= l < 2 ->
         exists v,
           views !! Z.to_nat l = Some v
           /\ fv_layer v = l
           /\ (forall a, 0 <= a < fv_ni v * fv_w_stride v ->
                 wa_get {| base := d_weights u; offset := fv_weights v |} a
                 = if l =? 0 then fzero else fone)
           /\ (forall o, 0 <= o < fv_no v ->
                 wa_get {| base := d_biases u; offset := fv_biases v |} o
                 = fone).
Proof.
  apply (plan_copy_read_by_kernel 18446744073709551616
           (fun _ => "error"%string) 0 2 [2; 3; 1] [4; 1]
           (fun l _ => if l =? 0 then fzero else fone) (fun _ _ => fone)
           (fun _ => (0, 0)) (fun _ => fzero) (fun _ => fzero) 3 7 7).
  - lia.
  - intros l Hl. assert (Hcases : l = 0 \/ l = 1) by lia.
    destruct Hcases as [-> | ->]; by vm_compute.
  - reflexivity.
  - reflexivity.
  - reflexivity.
  - reflexivity.
  - intros l Hl. split; reflexivity.
  - lia.
Defined.

(** X13: every copy of the constructor stays inside the device array it
    writes.  When no size is negative, the number of the weights of every
    layer is an [int], the arrays' byte sizes fit [size_t] and every copy
    succeeds, iteration [l] of the copy loop starts with
    offsets that are not negative, and the [ni * w_stride] weights and
    [no] biases it copies from there end within the [total_weights_size]
    and [total_bias_size] elements that the first loop has computed and
    the arrays were allocated with. *)
Theorem plan_copy_within_arrays (size_t_modulus : Z)
    (cudaGetErrorString : Z -> String.string) (cudaSuccess : Z)
    (num_layers : Z) (architecture w_strides : list Z)
    (weights biases : Z -> mem) (errs : Z -> Z * Z) (d_w d_b : mem) (l : Z)
    (Hlayers : 0 <= num_layers < 2147483648)
    (Hsizes : sizes_fit num_layers architecture w_strides)
    (Hw : sizeof_float * weights_offset architecture w_strides num_layers
          < size_t_modulus)
    (Hb : sizeof_float * outputs_offset architecture num_layers
          < size_t_modulus)
    (Herrs : forall l, 0 <= l < num_layers ->
               fst (errs l) = cudaSuccess /\ snd (errs l) = cudaSuccess)
    (Hl : 0 <= l < num_layers) :
  exists u,
    copy_layers size_t_modulus cudaGetErrorString cudaSuccess l
      architecture w_strides weights biases errs d_w d_b
    = inr u
    /\ 0 <= weights_start_offset u
    /\ weights_start_offset u
       + array_at architecture l * array_at w_strides l
       <= fst (total_sizes size_t_modulus num_layers architecture w_strides)
    /\ 0 <= bias_start_offset u
    /\ bias_start_offset u + array_at architecture (l + 1)
       <= snd (total_sizes size_t_modulus num_layers architecture w_strides).
Proof.
  assert (Hsn : sizes_fit (Z.of_nat (Z.to_nat num_layers)) architecture
                  w_strides) by (by rewrite Z2Nat.id by lia).
  destruct (weights_offset_mono architecture w_strides (Z.to_nat num_layers)
              l Hsn ltac:(lia)) as [Hwl Hol].
  destruct (weights_offset_mono architecture w_strides (Z.to_nat num_layers)
              (l + 1) Hsn ltac:(lia)) as [Hwl1 Hol1].
  rewrite Z2Nat.id in Hwl, Hol, Hwl1, Hol1 by lia.
  rewrite weights_offset_succ in Hwl1 by lia.
  rewrite outputs_offset_succ in Hol1 by lia.
  unfold sizeof_float in *.
  unfold total_sizes, copy_layers.
  rewrite (u32_small num_layers), (u32_small l) by (unfold two32; lia).
  pose proof (total_sizes_fold size_t_modulus architecture w_strides
                (Z.to_nat num_layers)) as Htotal.
  rewrite Z2Nat.id in Htotal by lia. cbv zeta in Htotal.
  rewrite Htotal by (done || lia).
  cbn [fst snd].
  assert (Hsl : sizes_fit (Z.of_nat (Z.to_nat l)) architecture w_strides).
  { intros j Hj. apply Hsizes. lia. }
  destruct (copy_layers_fold size_t_modulus cudaGetErrorString cudaSuccess
              architecture w_strides weights biases errs d_w d_b
              (Z.to_nat l) Hsl)
    as (u & Hrun & Hwo & Hbo & _).
  - rewrite Z2Nat.id by lia. unfold sizeof_float. lia.
  - rewrite Z2Nat.id by lia. unfold sizeof_float. lia.
  - intros j Hj. apply Herrs. lia.
  - rewrite Z2Nat.id in Hrun, Hwo, Hbo by lia.
    exists u. split; [exact Hrun |]. rewrite Hwo, Hbo. lia.
Qed.

Lemma plan_copy_within_arrays_witness :
  exists u,
    copy_layers 18446744073709551616 (fun _ => "error"%string) 0 1
      [2; 3; 1] [4; 1] (fun _ _ => fone) (fun _ _ => fone)
      (fun _ => (0, 0)) (fun _ => fzero) (fun _ => fzero)
    = inr u
    /\ 0 <= weights_start_offset u
    /\ weights_start_offset u + array_at [2; 3; 1] 1 * array_at [4; 1] 1
       <= fst (total_sizes 18446744073709551616 2 [2; 3; 1] [4; 1])
    /\ 0 <= bias_start_offset u
    /\ bias_start_offset u + array_at [2; 3; 1] (1 + 1)
       <= snd (total_sizes 18446744073709551616 2 [2; 3; 1] [4; 1]).
Proof.
  apply (plan_copy_within_arrays 18446744073709551616
           (fun _ => "error"%string) 0 2 [2; 3; 1] [4; 1]
           (fun _ _ => fone) (fun _ _ => fone)
           (fun _ => (0, 0)) (fun _ => fzero) (fun _ => fzero) 1).
  - lia.
  - intros l Hl. assert (Hcases : l = 0 \/ l = 1) by lia.
    destruct Hcases as [-> | ->]; by vm_compute.
  - reflexivity.
  - reflexivity.
  - intros l Hl. split; reflexivity.
  - lia.
Defined.

(** X14: the first copy that fails ends the constructor.  If the copies of
    the layers before [l] succeed and one of the two copies of layer [l]
    does not, the loop throws an exception whose message is
    [cudaGetErrorString] of the code the first failing copy returned,
    whatever the copies of the later layers would return. *)
Theorem plan_copy_failure (size_t_modulus : Z)
    (cudaGetErrorString : Z -> String.string) (cudaSuccess : Z)
    (num_layers : Z) (architecture w_strides : list Z)
    (weights biases : Z -> mem) (errs : Z -> Z * Z) (d_w d_b : mem) (l : Z)
    (Hlayers : 0 <= num_layers < 2147483648)
    (Hl : 0 <= l < num_layers)
    (Hbefore : forall j, 0 <= j < l ->
                 fst (errs j) = cudaSuccess /\ snd (errs j) = cudaSuccess)
    (Hfails : fst (errs l) <> cudaSuccess \/ snd (errs l) <> cudaSuccess) :
  copy_layers size_t_modulus cudaGetErrorString cudaSuccess num_layers
    architecture w_strides weights biases errs d_w d_b
  = inl (mkException
           (cudaGetErrorString
              (if fst (errs l) =? cudaSuccess then snd (errs l)
               else fst (errs l)))).
Proof.
  unfold copy_layers. rewrite (u32_small num_layers) by (unfold two32; lia).
  replace num_layers with (l + (num_layers - l)) by lia.
  rewrite seqZ_app, foldl_app by lia.
  rewrite <- (Z2Nat.id l) at 1 by lia.
  destruct (copy_layers_succeed size_t_modulus cudaGetErrorString cudaSuccess
              architecture w_strides weights biases errs d_w d_b (Z.to_nat l))
    as [u Hrun].
  { intros j Hj. apply Hbefore. lia. }
  rewrite Hrun, (seqZ_cons (0 + l)) by lia. cbn [foldl].
  rewrite Z.add_0_l.
  assert (Hstep :
    copy_layer size_t_modulus cudaGetErrorString cudaSuccess architecture
      w_strides weights biases errs l u
    = inl (mkException
             (cudaGetErrorString
                (if fst (errs l) =? cudaSuccess then snd (errs l)
                 else fst (errs l))))).
  { unfold copy_layer.
    destruct (fst (errs l) =? cudaSuccess) eqn:H1; cbn [negb]; [| done].
    destruct (snd (errs l) =? cudaSuccess) eqn:H2; cbn [negb]; [| done].
    apply Z.eqb_eq in H1, H2. destruct Hfails; done. }
  rewrite Hstep. apply copy_layers_thrown.
Qed.

Lemma plan_copy_failure_witness :
  copy_layers 18446744073709551616
    (fun err => if err =? 11 then "invalid value"%string else "error"%string)
    0 3 [2; 3; 1; 1] [4; 1; 1] (fun _ _ => fone) (fun _ _ => fone)
    (fun l => if l =? 0 then (0, 0) else if l =? 1 then (0, 11) else (2, 0))
    (fun _ => fzero) (fun _ => fzero)
  = inl (mkException "invalid value"%string).
Proof.
  apply (plan_copy_failure 18446744073709551616
           (fun err => if err =? 11 then "invalid value"%string
                       else "error"%string)
           0 3 [2; 3; 1; 1] [4; 1; 1] (fun _ _ => fone) (fun _ _ => fone)
           (fun l => if l =? 0 then (0, 0) else if l =? 1 then (0, 11)
                     else (2, 0))
           (fun _ => fzero) (fun _ => fzero) 1).
  - lia.
  - lia.
  - intros j Hj. replace j with 0 by lia. split; reflexivity.
  - right. vm_compute. discriminate.
Defined.

(** ** The inputs in shared memory *)

Section LoadInputs.

Variable N : Z.
Variable input : mem.
Variables ni scratch_stride nthreads : Z.

Hypothesis HN : 0 <= N.
Hypothesis Hni : 0 <= ni <= scratch_stride.
Hypothesis Hthreads : 0 <= nthreads <= scratch_stride.
Hypothesis Hfit : N * scratch_stride <= two32.
Hypothesis Hint : ni < 2147483648.

Lemma load_inputs_own scratch x tid :
  0 <= x < N -> 0 <= tid < nthreads ->
  load_inputs N input ni scratch_stride tid scratch
    (scratch_index scratch_stride x tid)
  = if tid <? ni then input (x * ni + tid) else fzero.
Proof.
  intros Hx Ht. unfold load_inputs, FOR_ALL_X.
  rewrite (u32_small ni) by (unfold two32; lia).
  etrans.
  - apply (foldl_writers
             (fun x s => store s (scratch_index scratch_stride x tid)
                           (if tid <? ni then input (u32 (u32 (x * ni) + tid))
                            else fzero))
             (fun x a => a =? scratch_index scratch_stride x tid)
             (fun x _ => if tid <? ni then input (u32 (u32 (x * ni) + tid))
                         else fzero)
             ltac:(intros y s a Ha; apply store_ne; by apply Z.eqb_neq)
             ltac:(intros y s a Ha; apply Z.eqb_eq in Ha as ->; apply store_eq)
             (seqZ 0 N) scratch (scratch_index scratch_stride x tid) x).
    + apply elem_of_seqZ. lia.
    + apply Z.eqb_refl.
    + intros x' Hx' Heq. apply elem_of_seqZ in Hx'.
      apply Z.eqb_eq in Heq. symmetry in Heq.
      apply (scratch_index_inj scratch_stride N) in Heq; lia.
  - cbv beta. destruct (Z.ltb_spec tid ni) as [Hlt | Hge]; [| done].
    rewrite (u32_small (x * ni)) by nia.
    rewrite u32_small by nia. done.
Qed.

Lemma load_inputs_other scratch tid a :
  (forall x, 0 <= x < N -> a <> scratch_index scratch_stride x tid) ->
  load_inputs N input ni scratch_stride tid scratch a = scratch a.
Proof.
  intros Ha. unfold load_inputs, FOR_ALL_X.
  apply (foldl_writers_other
           (fun x s => store s (scratch_index scratch_stride x tid)
                         (if tid <? u32 ni
                          then input (u32 (u32 (x * ni) + tid)) else fzero))
           (fun x a => a =? scratch_index scratch_stride x tid)).
  - intros y s a' Hne. apply store_ne. by apply Z.eqb_neq.
  - intros x Hx. apply elem_of_seqZ in Hx. apply Z.eqb_neq, Ha. lia.
Qed.

Lemma load_inputs_pass_member (order : list Z) :
  forall scratch x tid,
    (forall t, t ∈ order -> 0 <= t < nthreads) ->
    0 <= x < N -> tid ∈ order ->
    load_inputs_pass N input ni scratch_stride order scratch
      (scratch_index scratch_stride x tid)
    = if tid <? ni then input (x * ni + tid) else fzero.
Proof.
  unfold load_inputs_pass.
  induction order as [| z order IH] using rev_ind;
    intros scratch x tid Horder Hx Hin.
  - by apply elem_of_nil in Hin.
  - rewrite foldl_snoc.
    assert (Hz : 0 <= z < nthreads).
    { apply Horder, elem_of_app. right. by apply list_elem_of_singleton. }
    destruct (Z.eq_dec tid z) as [Heq | Hne].
    + rewrite Heq. by apply load_inputs_own.
    + apply elem_of_app in Hin as [Hin | Hin];
        [| apply list_elem_of_singleton in Hin; done].
      pose proof (Horder tid ltac:(apply elem_of_app; by left)) as Ht.
      rewrite load_inputs_other.
      * apply IH; [| done | done].
        intros t Hin'. apply Horder, elem_of_app. by left.
      * intros x' Hx' Heq.
        apply (scratch_index_inj scratch_stride N) in Heq; lia.
Qed.

Lemma load_inputs_pass_frame (order : list Z) :
  forall scratch a,
    (forall x t, 0 <= x < N -> t ∈ order ->
       a <> scratch_index scratch_stride x t) ->
    load_inputs_pass N input ni scratch_stride order scratch a = scratch a.
Proof.
  unfold load_inputs_pass.
  induction order as [| z order IH] using rev_ind; intros scratch a Ha.
  - done.
  - rewrite foldl_snoc, load_inputs_other.
    + apply IH. intros x t Hx Hin. apply Ha; [done |].
      apply elem_of_app. by left.
    + intros x Hx. apply Ha; [done |].
      apply elem_of_app. right. by apply list_elem_of_singleton.
Qed.

End LoadInputs.

(** X16: the inputs as the first layer finds them.  Let the threads of a
    group copy the inputs of a batch in any order, every thread below the
    number of threads, which is at most [scratch_stride], and let the first
    layer have [ni <= scratch_stride] inputs.  After the copy the scratch
    cell [x * scratch_stride + tid] of each thread [tid] that ran holds
    input [tid] of example [x] if [tid < ni] and [0.0] otherwise, whatever
    the scratch held before and whichever thread came first; a cell that is
    of no thread that ran is as it was. *)
Theorem inputs_loaded (N : Z) (input : mem) (ni scratch_stride nthreads : Z)
    (order : list Z) (scratch : mem)
    (HN : 0 <= N)
    (Hni : 0 <= ni <= scratch_stride)
    (Hthreads : 0 <= nthreads <= scratch_stride)
    (Hfit : N * scratch_stride <= two32)
    (Hint : ni < 2147483648)
    (Horder : forall t, t ∈ order -> 0 <= t < nthreads) :
  let scratch' := load_inputs_pass N input ni scratch_stride order scratch in
  (forall x tid, 0 <= x < N -> tid ∈ order ->
     scratch' (x * scratch_stride + tid)
     = if tid <? ni then input (x * ni + tid) else fzero)
  /\ (forall a,
        (forall x t, 0 <= x < N -> t ∈ order -> a <> x * scratch_stride + t) ->
        scratch' a = scratch a).
Proof.
  split.
  - intros x tid Hx Hin. pose proof (Horder tid Hin) as Ht.
    rewrite <- (scratch_index_small scratch_stride x tid) by nia.
    by apply (load_inputs_pass_member N input ni scratch_stride nthreads).
  - intros a Ha.
    apply (load_inputs_pass_frame N input ni scratch_stride).
    intros x t Hx Hin. pose proof (Horder t Hin) as Ht.
    rewrite scratch_index_small by nia. by apply Ha.
Qed.

Lemma inputs_loaded_witness :
  (0 <= 2 /\ 0 <= 2 <= 3 /\ 0 <= 3 <= 3 /\ 2 * 3 <= two32 /\ 2 < 2147483648)
  /\ load_inputs_pass 2 (fun a => if a =? 3 then fone else fzero) 2 3
       [2; 0; 1] (fun _ => fone) (1 * 3 + 1)
     = fone
  /\ load_inputs_pass 2 (fun a => if a =? 3 then fone else fzero) 2 3
       [2; 0; 1] (fun _ => fone) (1 * 3 + 2)
     = fzero.
Proof.
  split; [unfold two32; lia |].
  assert (Horder : forall t, t ∈ [2; 0; 1] -> 0 <= t < 3).
  { intros t Hin. repeat (apply elem_of_cons in Hin as [-> | Hin]; [lia |]).
    by apply elem_of_nil in Hin. }
  destruct (inputs_loaded 2 (fun a => if a =? 3 then fone else fzero) 2 3 3
              [2; 0; 1] (fun _ => fone) ltac:(lia) ltac:(lia) ltac:(lia)
              ltac:(unfold two32; lia) ltac:(lia) Horder)
    as [Hcells _].
  split.
  - apply (Hcells 1 1 ltac:(lia)). repeat constructor.
  - apply (Hcells 1 2 ltac:(lia)). repeat constructor.
Defined.

(** ** Context::synchronize, called again *)

Lemma std_copy_again {UpdateFloat : Type} (to_float : UpdateFloat -> float)
    (sync_to : list UpdateFloat) (dest : list float) :
  std_copy to_float sync_to (std_copy to_float sync_to dest)
  = std_copy to_float sync_to dest.
Proof.
  unfold std_copy. f_equal.
  rewrite <- (length_fmap to_float sync_to) at 1.
  by rewrite drop_app_length.
Qed.

Lemma foldl_alter_again {A : Type} (F : Z -> A -> A) (L : list A) (n : Z) :
  (forall l a, F l (F l a) = F l a) ->
  foldl (fun L l => alter (F l) (Z.to_nat l) L)
        (foldl (fun L l => alter (F l) (Z.to_nat l) L) L (seqZ 0 n))
        (seqZ 0 n)
  = foldl (fun L l => alter (F l) (Z.to_nat l) L) L (seqZ 0 n).
Proof.
  intros HF. rewrite (seqZ_to_nat n). apply list_eq. intros j.
  rewrite !foldl_alter_lookup. case_decide; [| done].
  destruct (L !! j) as [a |]; [| done]. cbn. by rewrite HF.
Qed.

Lemma synchronize_run {UpdateFloat : Type} (to_float : UpdateFloat -> float)
    (cudaGetErrorString : Z -> String.string) (cudaSuccess : Z)
    (ctx : Context UpdateFloat) (h : host_buffers float) :
  synchronize to_float cudaGetErrorString cudaSuccess cudaSuccess ctx h
  = (inr tt,
     {| weight_updates :=
          foldl (fun buffers l =>
                   alter (weight_copy to_float ctx l) (Z.to_nat l) buffers)
                (weight_updates h) (seqZ 0 (num_layers (plan ctx)));
        bias_updates :=
          foldl (fun buffers l =>
                   alter (bias_copy to_float ctx l) (Z.to_nat l) buffers)
                (bias_updates h) (seqZ 0 (num_layers (plan ctx))) |}).
Proof.
  unfold synchronize. rewrite Z.eqb_refl. unfold bind at 1. cbn [ret].
  unfold bind at 1. rewrite for_layers_weights.
  by rewrite for_layers_biases.
Qed.

(** X17: a second [synchronize] changes nothing.  When the wait for the
    device succeeds, [synchronize] run on the buffers that an earlier
    [synchronize] of the same context has filled returns normally and
    leaves every buffer of the caller as it found it: the accumulators are
    read, never reset. *)
Theorem synchronize_again {UpdateFloat : Type}
    (to_float : UpdateFloat -> float)
    (cudaGetErrorString : Z -> String.string) (cudaSuccess : Z)
    (ctx : Context UpdateFloat) (h : host_buffers float) :
  let h' :=
    snd (synchronize to_float cudaGetErrorString cudaSuccess cudaSuccess
           ctx h) in
  synchronize to_float cudaGetErrorString cudaSuccess cudaSuccess ctx h'
  = (inr tt, h').
Proof.
  cbv zeta. rewrite !synchronize_run. cbn [snd weight_updates bias_updates].
  f_equal. f_equal.
  - apply foldl_alter_again. intros l a. apply std_copy_again.
  - apply foldl_alter_again. intros l a. apply std_copy_again.
Qed.
